(** * png-to-128x64: packed 4-bit grayscale bitmaps for the NHD-2.7-12864WD

    A shallow embedding of [png-to-128x64.py].  Python integers are [Z],
    [//] is [Z.div] (floor division), [<<] is [Z.shiftl], [|] is [Z.lor].
    Exceptions are the [Raise] branch of [result]; the file system and the
    standard output are threaded explicitly through [World]. *)

From Stdlib Require Import ZArith Ascii String List Lia.
From stdpp Require Import base option list strings gmap pretty.

Local Open Scope Z_scope.

(** ** Exceptions and results *)

(** The Python exceptions that the script can meet. *)
Inductive exn : Type :=
  | FileNotFoundError
  | UnidentifiedImageError
  | IndexError
  | TypeError
  | ValueError.

Inductive result (A : Type) : Type :=
  | Ok (a : A)
  | Raise (e : exn).
Arguments Ok {A} a.
Arguments Raise {A} e.

Global Instance result_ret : MRet result := fun _ a => Ok a.
Global Instance result_bind : MBind result := fun _ _ f m =>
  match m with
  | Ok a => f a
  | Raise e => Raise e
  end.

Global Instance exn_eq_dec : EqDecision exn.
Proof. solve_decision. Defined.

(** ** Quantizer (source lines 5-7) *)

Definition process_pixel (pixel_value : Z) : Z :=
  pixel_value / 16.

(** Line 42: [combined_byte = (first_pixel << 4) | second_pixel]. *)
Definition combined_byte (first_pixel second_pixel : Z) : Z :=
  Z.lor (Z.shiftl first_pixel 4) second_pixel.

(** The two nibbles of a byte, used to read a packed byte back: the high
    nibble is bits 7..4, the low nibble bits 3..0.  The script itself has
    no unpacker; these are the standard projections in which the round
    trip of the packing is stated. *)
Definition high_nibble (byte : Z) : Z := Z.land (Z.shiftr byte 4) 15.
Definition low_nibble (byte : Z) : Z := Z.land byte 15.
Definition unpack (byte : Z) : Z * Z := (high_nibble byte, low_nibble byte).

(** ** The world: a flat file system and the standard output *)

Record World : Type := mkWorld {
  fs : gmap string (list Z);
  stdout : list string
}.

(** Effectful code runs in a state-and-exception monad: an exception keeps
    the world reached when it was raised. *)
Definition M (A : Type) : Type := World → result A * World.

Global Instance M_ret : MRet M := fun _ a w => (Ok a, w).
Global Instance M_bind : MBind M := fun _ _ f m w =>
  match m w with
  | (Ok a, w') => f a w'
  | (Raise e, w') => (Raise e, w')
  end.

Definition lift {A : Type} (r : result A) : M A := fun w => (r, w).

Definition print (line : string) : M unit :=
  fun w => (Ok tt, {| fs := fs w; stdout := stdout w ++ [line] |}).

(** [with open(path, 'wb') as f: f.write(data)], in two steps as Python
    runs them: opening creates or truncates the file, writing fills it. *)
Definition open_wb (path : string) : M unit :=
  fun w => (Ok tt, {| fs := <[path := []]> (fs w); stdout := stdout w |}).

Definition write (path : string) (data : list Z) : M unit :=
  fun w => (Ok tt, {| fs := <[path := data]> (fs w); stdout := stdout w |}).

(** [bytearray(list_of_ints)]: every item must be in [range(256)]. *)
Definition bytearray (items : list Z) : result (list Z) :=
  if forallb (fun v => (0 <=? v) && (v <? 256)) items then Ok items
  else Raise ValueError.

(** [range(n)] and [range(start, stop, step)] for a positive step. *)
Definition range (n : nat) : list nat := seq 0 n.

Definition range_step (start stop step : nat) : list nat :=
  (fun k => (start + k * step)%nat) <$>
    seq 0 ((stop - start + (step - 1)) / step)%nat.

(** [for x in xs: body], the loop state passed along; an exception in the
    body leaves the loop. *)
Fixpoint for_in {A S : Type} (xs : list A) (body : A → S → result S) (s : S)
  : result S :=
  match xs with
  | [] => Ok s
  | x :: xs' => s' ← body x s; for_in xs' body s'
  end.

(** ** Pillow images *)

Module Image.

(** An image: its mode string, its [(width, height)], the palette of a
    ['P'] image (entries [r; g; b; a]) and the pixel grid.  A pixel is
    the list of its band values: one item for a single-band mode, where
    [getpixel] returns an integer, several for a tuple. *)
Record t : Type := mk {
  mode : string;
  size : nat * nat;
  palette : list (list Z);
  getdata : nat → nat → list Z
}.

Definition width (img : t) : nat := fst (size img).
Definition height (img : t) : nat := snd (size img).

(** The operations of Pillow whose algorithm the script does not fix:
    the decoders behind [Image.open], [img.convert(mode)] and
    [img.resize(size)] with its default filter. *)
Class PIL : Type := {
  decode : list Z → option t;
  convert : t → string → t;
  resize : t → nat * nat → t
}.

(** [Image.open(path)] *)
Definition open `{PIL} (path : string) : M t :=
  fun w =>
    match fs w !! path with
    | None => (Raise FileNotFoundError, w)
    | Some content =>
        match decode content with
        | None => (Raise UnidentifiedImageError, w)
        | Some img => (Ok img, w)
        end
    end.

(** [Image.new(mode, size, color)] *)
Definition new (mode : string) (size : nat * nat) (color : list Z) : t :=
  {| mode := mode; size := size; palette := []; getdata := fun _ _ => color |}.

(** Modelled from the spec: Pillow's compositing of one channel, which is
    not part of the script, is the spec's "over" formula
    [out = src*alpha + background*(1-alpha)], the alpha of the 8-bit
    source pixel being [alpha/255]. *)
Definition over (src alpha background : Z) : Z :=
  (src * alpha + background * (255 - alpha)) / 255.

(** Modelled from the spec: the composite of a source pixel over a
    background pixel, the formula above on each colour channel; the
    resulting coverage is [alpha + background_alpha*(1-alpha)]. *)
Definition over_pixel (dst src : list Z) : list Z :=
  match dst, src with
  | [dr; dg; db; da], [sr; sg; sb; sa] =>
      [over sr sa dr; over sg sa dg; over sb sa db; over 255 sa da]
  | _, _ => dst
  end.

(** Modelled from the spec: [Image.alpha_composite(im1, im2)], [im2] over
    [im1]; Pillow wants two ['RGBA'] images of one size and raises
    [ValueError] otherwise. *)
Definition alpha_composite (im1 im2 : t) : result t :=
  if bool_decide (mode im1 = "RGBA" ∧ mode im2 = "RGBA" ∧ size im1 = size im2)
  then Ok {| mode := "RGBA"; size := size im1; palette := [];
             getdata := fun x y => over_pixel (getdata im1 x y) (getdata im2 x y) |}
  else Raise ValueError.

(** [img.getpixel((x, y))] for the non-negative coordinates the script
    uses; outside the image Pillow raises [IndexError]. *)
Definition getpixel (img : t) (xy : nat * nat) : result (list Z) :=
  if bool_decide (fst xy < width img ∧ snd xy < height img)%nat
  then Ok (getdata img (fst xy) (snd xy))
  else Raise IndexError.

End Image.

(** A pixel used as a number: an integer passes, a tuple makes the [//] of
    [process_pixel] raise [TypeError]. *)
Definition as_int (pixel_value : list Z) : result Z :=
  match pixel_value with
  | [v] => Ok v
  | _ => Raise TypeError
  end.

(** ** [os.path.splitext] (posixpath) *)

(** [p.rfind(c)]: the highest index of [c] in [p], or [-1]. *)
Fixpoint rfind (p : string) (c : ascii) : Z :=
  match p with
  | EmptyString => -1
  | String a p' =>
      let r := rfind p' c in
      if 0 <=? r then r + 1
      else if bool_decide (a = c) then 0 else -1
  end.

(** [p[:n]] and [p[n:]] *)
Fixpoint str_take (n : nat) (p : string) : string :=
  match n, p with
  | S n', String a p' => String a (str_take n' p')
  | _, _ => EmptyString
  end.

Fixpoint str_drop (n : nat) (p : string) : string :=
  match n, p with
  | S n', String _ p' => str_drop n' p'
  | _, _ => p
  end.

(** The [while filenameIndex < dotIndex] loop of [genericpath._splitext],
    [count] being [dotIndex - filenameIndex]: [true] when it meets a
    character other than the dot, [false] when it runs to [dotIndex]. *)
Fixpoint skip_leading_dots (p : string) (filenameIndex count : nat) : bool :=
  match count with
  | O => false
  | S count' =>
      if bool_decide (String.get filenameIndex p ≠ Some "."%char) then true
      else skip_leading_dots p (S filenameIndex) count'
  end.

Definition splitext (p : string) : string * string :=
  let sepIndex := rfind p "/" in
  let dotIndex := rfind p "." in
  if (sepIndex <? dotIndex)
     && skip_leading_dots p (Z.to_nat (sepIndex + 1))
          (Z.to_nat dotIndex - Z.to_nat (sepIndex + 1))
  then (str_take (Z.to_nat dotIndex) p, str_drop (Z.to_nat dotIndex) p)
  else (p, EmptyString).

(** Shapes of path components, to say when [splitext] finds an extension. *)
Fixpoint has_char (c : ascii) (p : string) : bool :=
  match p with
  | EmptyString => false
  | String a p' => bool_decide (a = c) || has_char c p'
  end.

Fixpoint all_dots (p : string) : bool :=
  match p with
  | EmptyString => true
  | String a p' => bool_decide (a = "."%char) && all_dots p'
  end.

(** ** The conversion (source lines 9-61) *)

Section Conversion.
Context `{pil : Image.PIL}.

(** Lines 15-19: flatten onto a white background. *)
Definition flatten_over_white (img : Image.t) : result Image.t :=
  let img := Image.convert img "RGBA" in
  let background := Image.new "RGBA" (Image.size img) [255; 255; 255; 255] in
  Image.alpha_composite background img.

(** Lines 13-19. *)
Definition alpha_flatten (img : Image.t) : result Image.t :=
  if bool_decide (Image.mode img = "P") || bool_decide (Image.mode img = "RGBA")
  then flatten_over_white img
  else Ok img.

(** Lines 27-45: the pairs of pixels of each row, packed. *)
Definition pack_bitmap (img : Image.t) : result (list Z) :=
  for_in (range 64) (fun y bitmap_data =>
    for_in (range_step 0 128 2) (fun x bitmap_data =>
      pixel_value1 ← Image.getpixel img (x, y) ≫= as_int;
      let first_pixel := process_pixel pixel_value1 in
      pixel_value2 ← Image.getpixel img ((x + 1)%nat, y) ≫= as_int;
      let second_pixel := process_pixel pixel_value2 in
      Ok (bitmap_data ++ [combined_byte first_pixel second_pixel]))
      bitmap_data)
    [].

(** Lines 52-55. *)
Definition resolve_output_path (image_path : string) (output_path : option string)
  : string :=
  match output_path with
  | None =>
      let base_name := fst (splitext image_path) in
      base_name +:+ "-4bit.bin"
  | Some output_path => output_path
  end.

(** Lines 47-61. *)
Definition save_bitmap (bitmap_data : list Z) (image_path : string)
    (output_path : option string) : M unit :=
  if bool_decide (length bitmap_data ≠ (128 * 64 / 2)%nat) then
    print ("Error: Expected 4096 bytes, got " +:+ pretty (length bitmap_data)
           +:+ " bytes.")
  else
    let output_path := resolve_output_path image_path output_path in
    open_wb output_path;;
    content ← lift (bytearray bitmap_data);
    write output_path content;;
    print ("Image successfully converted and saved to " +:+ output_path).

Definition convert_image_to_4bit_grayscale (image_path : string)
    (output_path : option string) : M unit :=
  img ← Image.open image_path;
  img ← lift (alpha_flatten img);
  let img := Image.convert img "L" in
  let img := Image.resize img (128, 64)%nat in
  bitmap_data ← lift (pack_bitmap img);
  save_bitmap bitmap_data image_path output_path.

End Conversion.

(** ** Shapes of images *)

(** An ['L'] image as Pillow holds it: one 8-bit intensity per pixel. *)
Definition gray_pixels (img : Image.t) : Prop :=
  ∀ x y, (x < Image.width img)%nat → (y < Image.height img)%nat →
    ∃ v, Image.getdata img x y = [v] ∧ 0 ≤ v ≤ 255.

Definition is_gray (img : Image.t) : Prop :=
  Image.mode img = "L" ∧ gray_pixels img.

Definition nonempty (img : Image.t) : Prop :=
  (1 ≤ Image.width img)%nat ∧ (1 ≤ Image.height img)%nat.

(** The intensity of the pixel at [(x, y)] of a single-band image. *)
Definition intensity (img : Image.t) (x y : nat) : Z :=
  match Image.getdata img x y with
  | [v] => v
  | _ => 0
  end.

(** The byte that lines 34-42 compute for the pixels [x] and [x + 1] of
    row [y]. *)
Definition packed_pair (img : Image.t) (y x : nat) : Z :=
  combined_byte (process_pixel (intensity img x y))
                (process_pixel (intensity img (x + 1) y)).

(** The bytes of all rows, top to bottom. *)
Definition packed_rows (img : Image.t) : list Z :=
  mjoin ((fun y => packed_pair img y <$> range_step 0 128 2) <$> range 64).

(** The modes of Pillow whose last band is an alpha band. *)
Definition alpha_modes : list string := ["LA"; "La"; "PA"; "RGBA"; "RGBa"].

(** The coverage of the pixel at [(x, y)]: the alpha band where the mode
    has one, the alpha of the palette entry in a ['P'] image, else opaque. *)
Definition alpha_at (img : Image.t) (x y : nat) : Z :=
  if bool_decide (Image.mode img ∈ alpha_modes) then
    List.last (Image.getdata img x y) 255
  else if bool_decide (Image.mode img = "P") then
    match Image.getdata img x y with
    | [i] => List.last (List.nth (Z.to_nat i) (Image.palette img) []) 255
    | _ => 255
    end
  else 255.

Definition has_transparency (img : Image.t) : Prop :=
  ∃ x y, (x < Image.width img)%nat ∧ (y < Image.height img)%nat ∧
    alpha_at img x y < 255.

(** What the script relies on from Pillow: [convert] sets the mode and
    keeps the size, [convert('L')] yields 8-bit intensities, and [resize]
    of an ['L'] image yields an ['L'] image of the size asked for. *)
Class PILContract (pil : Image.PIL) : Prop := {
  convert_mode : ∀ img m, Image.mode (Image.convert img m) = m;
  convert_size : ∀ img m, Image.size (Image.convert img m) = Image.size img;
  convert_L_pixels : ∀ img, gray_pixels (Image.convert img "L");
  resize_size : ∀ img sz, is_gray img → nonempty img →
    Image.size (Image.resize img sz) = sz;
  resize_gray : ∀ img sz, is_gray img → nonempty img →
    is_gray (Image.resize img sz)
}.

(** ** A reference instance of the Pillow operations

    A raw container ([tag; width; height] and the band values, row by
    row), the ITU-R 601-2 luma transform and nearest-neighbour resizing:
    enough to run the conversion on concrete files. *)

Definition raw_bands (tag : Z) : option (string * nat) :=
  if tag =? 0 then Some ("L", 1%nat)
  else if tag =? 1 then Some ("LA", 2%nat)
  else if tag =? 2 then Some ("RGB", 3%nat)
  else if tag =? 3 then Some ("RGBA", 4%nat)
  else None.

Definition raw_decode (content : list Z) : option Image.t :=
  match content with
  | tag :: w :: h :: body =>
      '(m, bands) ← raw_bands tag;
      if (1 <=? w) && (1 <=? h)
         && bool_decide (length body = (Z.to_nat w * Z.to_nat h * bands)%nat)
         && forallb (fun v => (0 <=? v) && (v <? 256)) body
      then Some {| Image.mode := m;
                   Image.size := (Z.to_nat w, Z.to_nat h);
                   Image.palette := [];
                   Image.getdata := fun x y =>
                     take bands (drop ((y * Z.to_nat w + x) * bands) body) |}
      else None
  | _ => None
  end.

Definition clamp8 (v : Z) : Z := Z.max 0 (Z.min 255 v).

Definition pixel_rgba (pal : list (list Z)) (m : string) (px : list Z) : list Z :=
  match px with
  | [v] => if bool_decide (m = "P") then List.nth (Z.to_nat v) pal [0; 0; 0; 255]
           else [v; v; v; 255]
  | [v; a] => [v; v; v; a]
  | [r; g; b] => [r; g; b; 255]
  | _ => px
  end.

Definition pixel_luma (pal : list (list Z)) (m : string) (px : list Z) : list Z :=
  match pixel_rgba pal m px with
  | r :: g :: b :: _ => [clamp8 ((r * 299 + g * 587 + b * 114) / 1000)]
  | _ => [0]
  end.

Definition ref_convert (img : Image.t) (m : string) : Image.t :=
  {| Image.mode := m;
     Image.size := Image.size img;
     Image.palette := if bool_decide (m = "P") then Image.palette img else [];
     Image.getdata := fun x y =>
       let px := Image.getdata img x y in
       if bool_decide (m = "L") then pixel_luma (Image.palette img) (Image.mode img) px
       else if bool_decide (m = "RGBA") then pixel_rgba (Image.palette img) (Image.mode img) px
       else px |}.

Definition ref_resize (img : Image.t) (sz : nat * nat) : Image.t :=
  {| Image.mode := Image.mode img;
     Image.size := sz;
     Image.palette := Image.palette img;
     Image.getdata := fun x y =>
       Image.getdata img (x * Image.width img / fst sz)%nat
                         (y * Image.height img / snd sz)%nat |}.

Definition ref_pil : Image.PIL :=
  {| Image.decode := raw_decode;
     Image.convert := ref_convert;
     Image.resize := ref_resize |}.

(** Sample worlds and images. *)
Definition world0 (files : list (string * list Z)) : World :=
  {| fs := list_to_map files; stdout := [] |}.

(** A 2x1 ['L'] file: a black and a white pixel. *)
Definition gray_file : list Z := [0; 2; 1; 0; 255].

(** The image that file decodes to. *)
Definition gray_image : Image.t :=
  {| Image.mode := "L"; Image.size := (2, 1)%nat; Image.palette := [];
     Image.getdata := fun x y => take 1 (drop ((y * 2 + x) * 1) [0; 255]) |}.

(** A 1x1 ['RGBA'] file: one fully transparent black pixel. *)
Definition rgba_file : list Z := [3; 1; 1; 0; 0; 0; 0].

(** A 1x1 ['LA'] image: one fully transparent black pixel. *)
Definition la_image : Image.t :=
  {| Image.mode := "LA"; Image.size := (1, 1)%nat; Image.palette := [];
     Image.getdata := fun _ _ => [0; 0] |}.

Definition la_file : list Z := [1; 1; 1; 0; 0].

(** A 2x1 ['RGBA'] image: a fully transparent and an opaque pixel. *)
Definition rgba_image : Image.t :=
  {| Image.mode := "RGBA"; Image.size := (2, 1)%nat; Image.palette := [];
     Image.getdata := fun x _ =>
       if bool_decide (x = 0%nat) then [10; 20; 30; 0] else [10; 20; 30; 255] |}.

(** A file that no decoder accepts. *)
Definition broken_world : World := world0 [("broken.png", [9])].

(** A 128x64 ['L'] image: a diagonal gradient. *)
Definition gradient : Image.t :=
  {| Image.mode := "L"; Image.size := (128, 64)%nat; Image.palette := [];
     Image.getdata := fun x y => [Z.of_nat ((2 * x + 3 * y) mod 256)] |}.

(** A 130x70 ['L'] image: the gradient with the low four bits of every
    intensity cleared. *)
Definition coarse_gradient : Image.t :=
  {| Image.mode := "L"; Image.size := (130, 70)%nat; Image.palette := [];
     Image.getdata := fun x y => [16 * (Z.of_nat ((2 * x + 3 * y) mod 256) / 16)] |}.

(** ** The command line (source lines 63-95) *)

(** How the script ends: it runs to its last line, [sys.exit(code)] stops
    it, or an exception that nothing catches ends it with a traceback. *)
Inductive termination : Type :=
  | Completed
  | SystemExit (code : Z)
  | Traceback (e : exn).

(** The end of a script whose last call returned or raised. *)
Definition ending (r : result unit) : termination :=
  match r with
  | Ok _ => Completed
  | Raise e => Traceback e
  end.

Definition newline : string := String "010"%char EmptyString.

(** Lines 64-73: the text between the triple quotes, line by line. *)
Definition usage_text : string :=
  foldr (fun line rest => line +:+ newline +:+ rest) EmptyString
    [ EmptyString;
      "Usage: python script.py <input_image> [output_file]";
      EmptyString;
      "Arguments:";
      "  <input_image>   Path to the input image file (required).";
      "  [output_file]   Optional. Path to the output binary file. If not provided, the output will be named as the input image with '-4bit.bin' appended.";
      EmptyString;
      "Options:";
      "  -h, --help      Show this help message and exit." ].

(** Lines 63-74. *)
Definition print_usage : M unit := print usage_text.

Section Script.
Context `{pil : Image.PIL}.

(** Lines 76-95, [argv] being [sys.argv]. *)
Definition main (argv : list string) : World → termination * World :=
  fun w =>
    if bool_decide (length argv = 2%nat)
       && bool_decide (argv !! 1%nat = Some "-h" ∨ argv !! 1%nat = Some "--help")
    then
      let w := snd (print_usage w) in
      (SystemExit 0, w)
    else if bool_decide (length argv < 2)%nat then
      let w := snd (print "Error: Input image is required." w) in
      let w := snd (print_usage w) in
      (SystemExit 1, w)
    else
      match argv !! 1%nat with
      | None => (Traceback IndexError, w)
      | Some input_image =>
          let output_file :=
            if bool_decide (2 < length argv)%nat then argv !! 2%nat else None in
          let '(r, w) := convert_image_to_4bit_grayscale input_image output_file w in
          (ending r, w)
      end.

End Script.

(** ** Arithmetic of the quantizer and the packer *)

Lemma process_pixel_range v : 0 ≤ v ≤ 255 → 0 ≤ process_pixel v ≤ 15.
Proof.
  intros [Hlo Hhi]. unfold process_pixel. split.
  - apply Z.div_pos; lia.
  - assert (v / 16 < 16) by (apply Z.div_lt_upper_bound; lia). lia.
Qed.

Lemma process_pixel_mono v1 v2 : v1 ≤ v2 → process_pixel v1 ≤ process_pixel v2.
Proof. intros Hle. unfold process_pixel. apply Z.div_le_mono; lia. Qed.

Lemma combined_byte_add a b :
  0 ≤ b < 16 → combined_byte a b = a * 16 + b.
Proof.
  intros Hb. unfold combined_byte.
  rewrite Z.shiftl_mul_pow2 by lia. change (2 ^ 4) with 16.
  rewrite <- Z.lxor_lor, <- Z.add_nocarry_lxor; trivial;
    apply Z.bits_inj'; intros n Hn; rewrite Z.land_spec, Z.bits_0;
    change 16 with (2 ^ 4); destruct (Z.lt_ge_cases n 4) as [Hlt | Hge].
  all: try (rewrite Z.mul_pow2_bits_low by lia; reflexivity).
  all: rewrite (Z.bits_above_log2 b n), andb_false_r; trivial; try lia.
  all: destruct (Z.eq_dec b 0) as [-> | Hnz]; [simpl; lia |].
  all: apply Z.lt_le_trans with 4; [apply Z.log2_lt_pow2; lia | lia].
Qed.

Lemma combined_byte_range a b :
  0 ≤ a < 16 → 0 ≤ b < 16 → 0 ≤ combined_byte a b ≤ 255.
Proof. intros Ha Hb. rewrite combined_byte_add by lia. lia. Qed.

Lemma high_nibble_combined a b :
  0 ≤ a < 16 → 0 ≤ b < 16 → high_nibble (combined_byte a b) = a.
Proof.
  intros Ha Hb. unfold high_nibble. rewrite combined_byte_add by lia.
  rewrite Z.shiftr_div_pow2 by lia. change (2 ^ 4) with 16.
  change 15 with (Z.ones 4). rewrite Z.land_ones by lia. change (2 ^ 4) with 16.
  rewrite Z.div_add_l by lia. rewrite (Z.div_small b 16) by lia.
  rewrite Z.add_0_r. apply Z.mod_small; lia.
Qed.

Lemma low_nibble_combined a b :
  0 ≤ b < 16 → low_nibble (combined_byte a b) = b.
Proof.
  intros Hb. unfold low_nibble. rewrite combined_byte_add by lia.
  change 15 with (Z.ones 4). rewrite Z.land_ones by lia. change (2 ^ 4) with 16.
  rewrite Z.add_comm, Z.mod_add by lia. apply Z.mod_small; lia.
Qed.

(** ** Loops *)

Lemma for_in_collect {A B : Type} (xs : list A)
    (body : A → list B → result (list B)) (f : A → list B) :
  (∀ x acc, x ∈ xs → body x acc = Ok (acc ++ f x)) →
  ∀ acc, for_in xs body acc = Ok (acc ++ mjoin (f <$> xs)).
Proof.
  induction xs as [| x xs IH]; intros Hbody acc; simpl.
  - by rewrite app_nil_r.
  - rewrite Hbody by left. simpl. rewrite IH.
    + by rewrite <- app_assoc.
    + intros x' acc' Hin. apply Hbody. by right.
Qed.

Lemma join_singletons {A B : Type} (f : A → B) (xs : list A) :
  mjoin ((fun x => [f x]) <$> xs) = f <$> xs.
Proof. induction xs as [| x xs IH]; csimpl; [done | by rewrite IH]. Qed.

Lemma range_step_even x :
  x ∈ range_step 0 128 2 ↔ ∃ k, (k < 64)%nat ∧ x = (2 * k)%nat.
Proof.
  unfold range_step. change ((128 - 0 + (2 - 1)) / 2)%nat with 64%nat.
  rewrite list_elem_of_fmap. split.
  - intros (k & -> & Hk). apply elem_of_seq in Hk. exists k. lia.
  - intros (k & Hk & ->). exists k. split; [lia |]. apply elem_of_seq. lia.
Qed.

Lemma range_step_lookup k :
  (k < 64)%nat → range_step 0 128 2 !! k = Some (2 * k)%nat.
Proof.
  intros Hk. unfold range_step. change ((128 - 0 + (2 - 1)) / 2)%nat with 64%nat.
  rewrite list_lookup_fmap, lookup_seq_lt by done. simpl. f_equal. lia.
Qed.

(** ** The packer on a 128x64 grayscale image *)

Section Packer.
Variable img : Image.t.
Hypothesis img_gray : is_gray img.
Hypothesis img_size : Image.size img = (128, 64)%nat.

Lemma getpixel_gray x y :
  (x < 128)%nat → (y < 64)%nat →
  ∃ v, Image.getpixel img (x, y) = Ok [v] ∧ 0 ≤ v ≤ 255 ∧ intensity img x y = v.
Proof using img_gray img_size.
  intros Hx Hy. destruct img_gray as [_ Hpx].
  destruct (Hpx x y) as (v & Hv & Hrange).
  { unfold Image.width. rewrite img_size. exact Hx. }
  { unfold Image.height. rewrite img_size. exact Hy. }
  exists v. unfold Image.getpixel, Image.width, Image.height, intensity.
  rewrite img_size. simpl. rewrite Hv.
  rewrite bool_decide_eq_true_2 by lia. auto.
Qed.

Lemma pack_row y acc :
  (y < 64)%nat →
  for_in (range_step 0 128 2) (fun x bitmap_data =>
      pixel_value1 ← Image.getpixel img (x, y) ≫= as_int;
      let first_pixel := process_pixel pixel_value1 in
      pixel_value2 ← Image.getpixel img ((x + 1)%nat, y) ≫= as_int;
      let second_pixel := process_pixel pixel_value2 in
      Ok (bitmap_data ++ [combined_byte first_pixel second_pixel])) acc
  = Ok (acc ++ (packed_pair img y <$> range_step 0 128 2)).
Proof using img_gray img_size.
  intros Hy.
  rewrite (for_in_collect _ _ (fun x => [packed_pair img y x])).
  - by rewrite join_singletons.
  - intros x acc' Hx. apply range_step_even in Hx as (k & Hk & ->).
    destruct (getpixel_gray (2 * k) y) as (v1 & -> & _ & Hv1); [lia | done |].
    destruct (getpixel_gray (2 * k + 1) y) as (v2 & -> & _ & Hv2); [lia | done |].
    unfold packed_pair. by rewrite Hv1, Hv2.
Qed.

Lemma pack_bitmap_rows : pack_bitmap img = Ok (packed_rows img).
Proof using img_gray img_size.
  unfold pack_bitmap, packed_rows.
  rewrite (for_in_collect _ _ (fun y => packed_pair img y <$> range_step 0 128 2)).
  - done.
  - intros y acc Hy. apply elem_of_seq in Hy. apply pack_row. lia.
Qed.

End Packer.

Lemma packed_pair_range (img : Image.t) (x y : nat) :
  is_gray img → Image.size img = (128, 64)%nat →
  (x + 1 < 128)%nat → (y < 64)%nat →
  0 ≤ packed_pair img y x ≤ 255.
Proof.
  intros Hgray Hsize Hx Hy.
  destruct (getpixel_gray img Hgray Hsize x y) as (v1 & _ & Hr1 & Hv1); [lia | done |].
  destruct (getpixel_gray img Hgray Hsize (x + 1) y) as (v2 & _ & Hr2 & Hv2); [lia | done |].
  unfold packed_pair. rewrite Hv1, Hv2.
  pose proof (process_pixel_range v1 Hr1). pose proof (process_pixel_range v2 Hr2).
  apply combined_byte_range; lia.
Qed.

Lemma rows_same_length (img : Image.t) :
  Forall (fun row : list Z => length row = 64%nat)
    ((fun y => packed_pair img y <$> range_step 0 128 2) <$> range 64).
Proof.
  apply Forall_fmap, Forall_forall. intros y _. unfold compose.
  rewrite length_fmap. unfold range_step. by rewrite length_fmap, length_seq.
Qed.

Lemma packed_rows_lookup (img : Image.t) (y k : nat) :
  (y < 64)%nat → (k < 64)%nat →
  packed_rows img !! (y * 64 + k)%nat = Some (packed_pair img y (2 * k)).
Proof.
  intros Hy Hk. unfold packed_rows.
  apply (join_lookup_Some_same_length' 64); [apply rows_same_length | done |].
  exists (packed_pair img y <$> range_step 0 128 2). split.
  - unfold range. by rewrite list_lookup_fmap, lookup_seq_lt.
  - by rewrite list_lookup_fmap, range_step_lookup.
Qed.

Lemma packed_rows_length (img : Image.t) : length (packed_rows img) = 4096%nat.
Proof.
  unfold packed_rows.
  rewrite length_join, (sum_list_fmap_same 64) by apply rows_same_length.
  unfold range. by rewrite length_fmap, length_seq.
Qed.

Lemma packed_rows_bytes (img : Image.t) (i : nat) (b : Z) :
  packed_rows img !! i = Some b →
  ∃ x y, (x + 1 < 128)%nat ∧ (y < 64)%nat ∧ b = packed_pair img y x.
Proof.
  unfold packed_rows. intros Hi.
  apply (join_lookup_Some_same_length 64) in Hi; [| apply rows_same_length].
  destruct Hi as (y & row & k & Hrow & Hk & _).
  apply list_lookup_fmap_Some in Hrow as (y' & -> & Hy').
  unfold range in Hy'. apply lookup_seq in Hy' as [-> Hy].
  apply list_lookup_fmap_Some in Hk as (x & -> & Hx).
  apply list_elem_of_lookup_2, range_step_even in Hx as (j & Hj & ->).
  exists (2 * j)%nat, y. repeat split; lia.
Qed.

Lemma packed_rows_range (img : Image.t) (i : nat) (b : Z) :
  is_gray img → Image.size img = (128, 64)%nat →
  packed_rows img !! i = Some b → 0 ≤ b ≤ 255.
Proof.
  intros Hgray Hsize Hi.
  apply packed_rows_bytes in Hi as (x & y & Hx & Hy & ->).
  by apply packed_pair_range.
Qed.

Lemma bytearray_in_range (items : list Z) :
  (∀ i b, items !! i = Some b → 0 ≤ b ≤ 255) → bytearray items = Ok items.
Proof.
  intros Hitems. unfold bytearray.
  replace (forallb _ items) with true; [done |].
  symmetry. apply forallb_forall. intros b Hb.
  apply list_elem_of_In, list_elem_of_lookup in Hb as [i Hi].
  apply Hitems in Hi. apply andb_true_iff. split; [apply Z.leb_le | apply Z.ltb_lt]; lia.
Qed.

(** ** The reference instance meets the contract *)

Lemma gradient_is_gray : is_gray gradient.
Proof.
  split; [done |]. intros x y _ _. eexists. split; [reflexivity |].
  pose proof (Nat.mod_upper_bound (2 * x + 3 * y) 256). lia.
Qed.

Lemma clamp8_range v : 0 ≤ clamp8 v ≤ 255.
Proof. unfold clamp8. lia. Qed.

Lemma pixel_luma_gray pal m px : ∃ v, pixel_luma pal m px = [v] ∧ 0 ≤ v ≤ 255.
Proof.
  unfold pixel_luma. destruct (pixel_rgba pal m px) as [| r [| g [| b rest]]].
  1-3: exists 0; split; [done | lia].
  eexists. split; [done | apply clamp8_range].
Qed.

Lemma ref_resize_gray img sz :
  is_gray img → nonempty img → is_gray (ref_resize img sz).
Proof.
  intros [Hmode Hpx] [Hw Hh]. split; [done |].
  intros x y Hx Hy. unfold Image.width, Image.height in Hx, Hy. simpl in *.
  apply Hpx.
  - apply Nat.Div0.div_lt_upper_bound. nia.
  - apply Nat.Div0.div_lt_upper_bound. nia.
Qed.

Lemma ref_pil_contract : PILContract ref_pil.
Proof.
  split.
  - done.
  - done.
  - intros img x y _ _. simpl. apply pixel_luma_gray.
  - done.
  - intros img sz. apply ref_resize_gray.
Qed.

(** ** Running the stages *)

Lemma alpha_composite_white (img : Image.t) :
  Image.mode img = "RGBA" →
  Image.alpha_composite (Image.new "RGBA" (Image.size img) [255; 255; 255; 255]) img
  = Ok {| Image.mode := "RGBA"; Image.size := Image.size img; Image.palette := [];
          Image.getdata := fun x y =>
            Image.over_pixel [255; 255; 255; 255] (Image.getdata img x y) |}.
Proof.
  intros Hmode. unfold Image.alpha_composite.
  by rewrite bool_decide_eq_true_2.
Qed.

Lemma alpha_flatten_ok {pil : Image.PIL} (contract : PILContract pil)
    (img : Image.t) :
  ∃ flat, alpha_flatten img = Ok flat ∧ Image.size flat = Image.size img.
Proof.
  unfold alpha_flatten.
  destruct (bool_decide (Image.mode img = "P") || bool_decide (Image.mode img = "RGBA")).
  - unfold flatten_over_white.
    rewrite alpha_composite_white by apply convert_mode.
    eexists. split; [reflexivity |]. simpl. apply convert_size.
  - by exists img.
Qed.

Lemma save_bitmap_ok (buffer : list Z) (image_path : string)
    (output_path : option string) (w : World) :
  length buffer = 4096%nat → bytearray buffer = Ok buffer →
  save_bitmap buffer image_path output_path w
  = (Ok tt,
     {| fs := <[resolve_output_path image_path output_path := buffer]> (fs w);
        stdout := stdout w ++ ["Image successfully converted and saved to "
                               +:+ resolve_output_path image_path output_path] |}).
Proof.
  intros Hlen Hbytes. unfold save_bitmap.
  rewrite bool_decide_eq_false_2 by (rewrite Hlen; intros Hne; by apply Hne).
  unfold mbind, M_bind, open_wb, lift, write, print. simpl.
  rewrite Hbytes. simpl. by rewrite insert_insert_eq.
Qed.

Lemma save_bitmap_mismatch (buffer : list Z) (image_path : string)
    (output_path : option string) (w : World) :
  length buffer ≠ 4096%nat →
  save_bitmap buffer image_path output_path w
  = (Ok tt,
     {| fs := fs w;
        stdout := stdout w ++ ["Error: Expected 4096 bytes, got "
                               +:+ pretty (length buffer) +:+ " bytes."] |}).
Proof.
  intros Hlen. unfold save_bitmap.
  by rewrite bool_decide_eq_true_2.
Qed.

(** ** Paths *)

Lemma app_cons (a : ascii) (p q : string) : String a p +:+ q = String a (p +:+ q).
Proof. reflexivity. Qed.

Lemma app_nil (q : string) : "" +:+ q = q.
Proof. reflexivity. Qed.

Lemma str_app_assoc (p q r : string) : (p +:+ q) +:+ r = p +:+ (q +:+ r).
Proof. induction p as [| a p IH]; [done |]. by rewrite !app_cons, IH. Qed.

Lemma str_length_app (p q : string) :
  String.length (p +:+ q) = (String.length p + String.length q)%nat.
Proof. induction p as [| a p IH]; [done |]. rewrite app_cons. simpl. by rewrite IH. Qed.

Lemma rfind_bounds (p : string) (c : ascii) :
  -1 ≤ rfind p c < Z.of_nat (String.length p).
Proof.
  induction p as [| a p IH]; simpl; [lia |].
  destruct (0 <=? rfind p c) eqn:Hr; [apply Z.leb_le in Hr; lia |].
  case_bool_decide; lia.
Qed.

Lemma rfind_absent (p : string) (c : ascii) : has_char c p = false → rfind p c = -1.
Proof.
  induction p as [| a p IH]; simpl; [done |].
  intros [Ha Hp]%orb_false_iff. rewrite IH by done. simpl.
  by rewrite Ha.
Qed.

Lemma rfind_app (p q : string) (c : ascii) :
  rfind (p +:+ q) c
  = if 0 <=? rfind q c then Z.of_nat (String.length p) + rfind q c else rfind p c.
Proof.
  induction p as [| a p IH].
  - rewrite app_nil. simpl. destruct (0 <=? rfind q c) eqn:Hq; [lia |].
    apply Z.leb_gt in Hq. pose proof (rfind_bounds q c). lia.
  - rewrite app_cons. cbn [rfind String.length]. rewrite IH.
    destruct (0 <=? rfind q c) eqn:Hq; [| done].
    apply Z.leb_le in Hq.
    rewrite (proj2 (Z.leb_le 0 _)) by lia. lia.
Qed.

Lemma str_take_app (p q : string) : str_take (String.length p) (p +:+ q) = p.
Proof. induction p as [| a p IH]; [by destruct q |]. rewrite app_cons. simpl. by rewrite IH. Qed.

Lemma str_drop_app (p q : string) : str_drop (String.length p) (p +:+ q) = q.
Proof. induction p as [| a p IH]; [by destruct q |]. by rewrite app_cons. Qed.

Lemma get_app_l (p q : string) (i : nat) :
  (i < String.length p)%nat → String.get i (p +:+ q) = String.get i p.
Proof.
  revert i. induction p as [| a p IH]; intros i Hi; simpl in Hi; [lia |].
  rewrite app_cons. destruct i as [| i]; [done |]. simpl. apply IH. lia.
Qed.

Lemma get_app_r (p q : string) (i : nat) :
  String.get (String.length p + i) (p +:+ q) = String.get i q.
Proof. induction p as [| a p IH]; [done |]. by rewrite app_cons. Qed.

Lemma not_all_dots (p : string) :
  all_dots p = false →
  ∃ i, (i < String.length p)%nat ∧ String.get i p ≠ Some "."%char.
Proof.
  induction p as [| a p IH]; simpl; [done |].
  destruct (bool_decide (a = "."%char)) eqn:Ha; simpl.
  - intros (i & Hi & Hget)%IH. exists (S i). split; [lia | done].
  - intros _. exists 0%nat. split; [lia |]. simpl.
    apply bool_decide_eq_false in Ha. congruence.
Qed.

Lemma skip_leading_dots_meets (p : string) (start count i : nat) :
  (start ≤ i < start + count)%nat → String.get i p ≠ Some "."%char →
  skip_leading_dots p start count = true.
Proof.
  revert start. induction count as [| count IH]; intros start Hi Hget; [lia |].
  simpl. case_bool_decide as Hstart; [done |].
  apply IH; [| done].
  destruct (decide (i = start)) as [-> | Hne]; [by destruct Hstart | lia].
Qed.

(** A path [dir ++ base ++ "." ++ ext] splits before its last dot when
    [base] and [ext] hold no separator, [ext] no dot, and [base] some
    character other than the dot. *)
Lemma splitext_extension (dir base ext : string) :
  has_char "/" base = false → all_dots base = false →
  has_char "/" ext = false → has_char "." ext = false →
  splitext (dir +:+ base +:+ "." +:+ ext) = (dir +:+ base, "." +:+ ext).
Proof.
  intros Hbase_sep Hbase_dots Hext_sep Hext_dot.
  set (p := dir +:+ base +:+ "." +:+ ext).
  assert (p = (dir +:+ base) +:+ String "." ext) as Hp
    by (unfold p; by rewrite str_app_assoc).
  assert (rfind (String "." ext) "." = 0) as Hdot_tail
    by (simpl; by rewrite (rfind_absent ext "." Hext_dot)).
  assert (rfind (String "." ext) "/" = -1) as Hsep_tail
    by (simpl; by rewrite (rfind_absent ext "/" Hext_sep)).
  assert (rfind p "." = Z.of_nat (String.length (dir +:+ base))) as Hdot.
  { rewrite Hp, rfind_app, Hdot_tail. simpl. lia. }
  assert (rfind p "/" = rfind dir "/") as Hsep.
  { rewrite Hp, rfind_app, Hsep_tail. simpl.
    by rewrite rfind_app, (rfind_absent base "/" Hbase_sep). }
  pose proof (rfind_bounds dir "/") as Hdir.
  destruct (not_all_dots base Hbase_dots) as (j & Hj & Hget).
  unfold splitext. fold p. rewrite Hdot, Hsep, Nat2Z.id.
  rewrite str_length_app in *.
  rewrite (proj2 (Z.ltb_lt _ _)) by lia.
  rewrite (skip_leading_dots_meets p _ _ (String.length dir + j)).
  - simpl. rewrite <- str_length_app, Hp. by rewrite str_take_app, str_drop_app.
  - lia.
  - rewrite Hp, str_app_assoc, get_app_r. by rewrite get_app_l.
Qed.

(** Without a dot in its last component a path has no extension. *)
Lemma splitext_no_dot (dir base : string) :
  has_char "/" base = false → has_char "." base = false →
  (dir = "" ∨ ∃ dir', dir = dir' +:+ "/") →
  splitext (dir +:+ base) = (dir +:+ base, "").
Proof.
  intros Hsep Hdot Hdir. unfold splitext.
  rewrite !rfind_app, (rfind_absent base "/" Hsep), (rfind_absent base "." Hdot).
  simpl. destruct Hdir as [-> | [dir' ->]]; [done |].
  rewrite !rfind_app. simpl.
  pose proof (rfind_bounds dir' ".").
  destruct (_ <? _) eqn:Hlt; [apply Z.ltb_lt in Hlt; lia | done].
Qed.

(** ** Concrete runs *)

Example quantize_top_bin : process_pixel 255 = 15 ∧ process_pixel 240 = 15.
Proof. split; reflexivity. Qed.

Example pack_white_pair : combined_byte (process_pixel 255) (process_pixel 255) = 255.
Proof. reflexivity. Qed.

Example splitext_samples :
  splitext "photo.png" = ("photo", ".png") ∧
  splitext "a.b/photo" = ("a.b/photo", "") ∧
  splitext "a.b/.photo" = ("a.b/.photo", "") ∧
  splitext "archive.tar.gz" = ("archive.tar", ".gz").
Proof. repeat split; reflexivity. Qed.

(** An opaque black 128x64 image packs to 4096 zero bytes, a white one to
    4096 bytes [0xFF]. *)
Example pack_black_and_white :
  pack_bitmap (Image.new "L" (128, 64)%nat [0]) = Ok (replicate 4096 0) ∧
  pack_bitmap (Image.new "L" (128, 64)%nat [255]) = Ok (replicate 4096 255).
Proof. split; vm_compute; reflexivity. Qed.

(** The packer reads 128x64 pixels whatever the image: a smaller image
    raises [IndexError], a multi-band pixel [TypeError]. *)
Example pack_needs_resized_gray :
  pack_bitmap gray_image = Raise IndexError ∧
  pack_bitmap (Image.new "RGB" (128, 64)%nat [1; 2; 3]) = Raise TypeError.
Proof. split; reflexivity. Qed.

(** ** The claims about the quantizer and the packer *)

(** C1: on a 128x64 grayscale image the packer returns a buffer built in
    row-major order: for each row [y < 64] and each even column
    [x = 0, 2, ..., 126] the byte at index [y*64 + x/2] is
    [(quantize(pixel(x,y)) << 4) | quantize(pixel(x+1,y))], the left pixel
    in its high nibble and the right pixel in its low nibble; the buffer
    has no other byte. *)
Theorem C1_packed_layout (img : Image.t) :
  is_gray img → Image.size img = (128, 64)%nat →
  ∃ buffer, pack_bitmap img = Ok buffer ∧ length buffer = 4096%nat ∧
    ∀ x y, (y < 64)%nat → (x < 128)%nat → Nat.Even x →
      ∃ left right byte,
        Image.getpixel img (x, y) = Ok [left] ∧
        Image.getpixel img ((x + 1)%nat, y) = Ok [right] ∧
        buffer !! (y * 64 + x / 2)%nat = Some byte ∧
        byte = Z.lor (Z.shiftl (process_pixel left) 4) (process_pixel right) ∧
        high_nibble byte = process_pixel left ∧
        low_nibble byte = process_pixel right.
Proof.
  intros Hgray Hsize.
  exists (packed_rows img).
  split; [by apply pack_bitmap_rows |]. split; [apply packed_rows_length |].
  intros x y Hy Hx [k ->].
  destruct (getpixel_gray img Hgray Hsize (2 * k) y) as (v1 & Hg1 & Hr1 & Hv1); [lia | done |].
  destruct (getpixel_gray img Hgray Hsize (2 * k + 1) y) as (v2 & Hg2 & Hr2 & Hv2); [lia | done |].
  exists v1, v2, (packed_pair img y (2 * k)).
  pose proof (process_pixel_range v1 Hr1). pose proof (process_pixel_range v2 Hr2).
  split; [done |]. split; [done |]. split.
  - replace (2 * k / 2)%nat with k by (rewrite Nat.mul_comm, Nat.div_mul; lia).
    apply packed_rows_lookup; lia.
  - unfold packed_pair. rewrite Hv1, Hv2. split; [done |]. split.
    + apply high_nibble_combined; lia.
    + apply low_nibble_combined; lia.
Qed.

(** C3: on [0,255] the quantizer is the truncating division by 16, it is
    monotonic, and it maps [0,255] onto [0,15]. *)
Theorem C3_quantize (v1 v2 q : Z) :
  0 ≤ v1 → v1 ≤ v2 → v2 ≤ 255 → 0 ≤ q ≤ 15 →
  process_pixel v1 = Z.quot v1 16 ∧
  process_pixel v1 = v1 / 16 ∧
  process_pixel v1 ≤ process_pixel v2 ∧
  0 ≤ process_pixel v1 ≤ 15 ∧
  ∃ v, 0 ≤ v ≤ 255 ∧ process_pixel v = q.
Proof.
  intros H1 H12 H2 Hq. repeat split.
  - unfold process_pixel. symmetry. apply Z.quot_div_nonneg; lia.
  - by apply process_pixel_mono.
  - apply process_pixel_range; lia.
  - apply process_pixel_range; lia.
  - exists (16 * q). split; [lia |]. unfold process_pixel.
    rewrite Z.mul_comm. apply Z.div_mul. lia.
Qed.

(** C4: packing two nibbles and reading the byte back gives the nibbles:
    for [a], [b] in [0,15], the high and low nibble of [(a << 4) | b] are
    [a] and [b]. *)
Theorem C4_nibble_roundtrip (a b : Z) :
  0 ≤ a ≤ 15 → 0 ≤ b ≤ 15 → unpack (combined_byte a b) = (a, b).
Proof.
  intros Ha Hb. unfold unpack.
  by rewrite high_nibble_combined, low_nibble_combined by lia.
Qed.

(** C10: every value the packer appends has the form
    [((v1 // 16) << 4) | (v2 // 16)] for two intensities in [0,255] and
    lies in [0,255], so [bytearray] accepts the buffer. *)
Theorem C10_bytes_fit (img : Image.t) :
  is_gray img → Image.size img = (128, 64)%nat →
  ∃ buffer, pack_bitmap img = Ok buffer ∧
    (∀ i b, buffer !! i = Some b →
       ∃ v1 v2, 0 ≤ v1 ≤ 255 ∧ 0 ≤ v2 ≤ 255 ∧
         b = Z.lor (Z.shiftl (v1 / 16) 4) (v2 / 16) ∧ 0 ≤ b ≤ 255) ∧
    bytearray buffer = Ok buffer.
Proof.
  intros Hgray Hsize.
  exists (packed_rows img). split; [by apply pack_bitmap_rows |]. split.
  - intros i b Hi. pose proof (packed_rows_range img i b Hgray Hsize Hi) as Hb.
    apply packed_rows_bytes in Hi as (x & y & Hx & Hy & ->).
    destruct (getpixel_gray img Hgray Hsize x y) as (v1 & _ & Hr1 & Hv1); [lia | done |].
    destruct (getpixel_gray img Hgray Hsize (x + 1) y) as (v2 & _ & Hr2 & Hv2); [lia | done |].
    exists v1, v2. split; [done |]. split; [done |]. split; [| done].
    unfold packed_pair. by rewrite Hv1, Hv2.
  - apply bytearray_in_range. intros i b. by apply packed_rows_range.
Qed.

(** ** The claims about the whole conversion *)

(** C2: for every file that decodes to an image of at least 1x1 pixels, in
    any mode, the conversion succeeds and the buffer it packs and writes
    has exactly 4096 bytes. *)
Theorem C2_buffer_length {pil : Image.PIL} (contract : PILContract pil)
    (image_path : string)
    (output_path : option string) (w : World) (content : list Z) (img : Image.t) :
  fs w !! image_path = Some content →
  Image.decode content = Some img →
  nonempty img →
  ∃ flat buffer,
    alpha_flatten img = Ok flat ∧
    pack_bitmap (Image.resize (Image.convert flat "L") (128, 64)%nat) = Ok buffer ∧
    length buffer = 4096%nat ∧
    convert_image_to_4bit_grayscale image_path output_path w
    = (Ok tt,
       {| fs := <[resolve_output_path image_path output_path := buffer]> (fs w);
          stdout := stdout w ++ ["Image successfully converted and saved to "
                                 +:+ resolve_output_path image_path output_path] |}).
Proof.
  intros Hfile Hdecode [Hw Hh].
  destruct (alpha_flatten_ok contract img) as (flat & Hflat & Hsize).
  set (gray := Image.convert flat "L").
  assert (is_gray gray) as Hgray.
  { split; [apply convert_mode | apply convert_L_pixels]. }
  assert (nonempty gray) as Hne.
  { unfold nonempty, Image.width, Image.height, gray.
    rewrite convert_size, Hsize. done. }
  set (small := Image.resize gray (128, 64)%nat).
  pose proof (resize_gray gray (128, 64)%nat Hgray Hne) as Hsmall.
  pose proof (resize_size gray (128, 64)%nat Hgray Hne) as Hsmall_size.
  exists flat, (packed_rows small).
  pose proof (pack_bitmap_rows small Hsmall Hsmall_size) as Hpack.
  split; [done |]. split; [done |]. split; [apply packed_rows_length |].
  unfold convert_image_to_4bit_grayscale, Image.open, mbind, M_bind, lift.
  rewrite Hfile, Hdecode, Hflat. fold gray. fold small. rewrite Hpack.
  apply save_bitmap_ok; [apply packed_rows_length |].
  apply bytearray_in_range. intros i b. by apply packed_rows_range.
Qed.

(** Lines 15-19 alone: a pixel with alpha 0 in the ['RGBA'] form of the
    image comes out of the compositing onto white as 255 in every
    channel; the script runs these lines for the modes ['P'] and ['RGBA']
    only. *)
Lemma flatten_transparent_is_white {pil : Image.PIL} (contract : PILContract pil)
    (img : Image.t) (x y : nat) (r g b : Z) :
  Image.getpixel (Image.convert img "RGBA") (x, y) = Ok [r; g; b; 0] →
  ∃ flat, flatten_over_white img = Ok flat ∧
    Image.getpixel flat (x, y) = Ok [255; 255; 255; 255] ∧
    (Image.mode img = "P" ∨ Image.mode img = "RGBA" → alpha_flatten img = Ok flat).
Proof.
  intros Hpx. unfold flatten_over_white.
  rewrite alpha_composite_white by apply convert_mode.
  eexists. split; [reflexivity |]. split.
  - unfold Image.getpixel, Image.width, Image.height in *. simpl in *.
    destruct (bool_decide _); [| discriminate].
    injection Hpx as ->. unfold Image.over. simpl.
    by rewrite !Z.mul_0_r.
  - intros Hmode. unfold alpha_flatten, flatten_over_white.
    rewrite alpha_composite_white by apply convert_mode.
    destruct Hmode as [-> | ->]; done.
Qed.

(** C6, as the code has it: when the file does not decode,
    [UnidentifiedImageError] leaves the conversion uncaught; nothing is
    printed and no file is written. *)
Theorem C6_decode_failure_propagates {pil : Image.PIL} (image_path : string)
    (output_path : option string) (w : World) (content : list Z) :
  fs w !! image_path = Some content →
  Image.decode content = None →
  convert_image_to_4bit_grayscale image_path output_path w
  = (Raise UnidentifiedImageError, w).
Proof.
  intros Hfile Hdecode.
  unfold convert_image_to_4bit_grayscale, Image.open, mbind, M_bind.
  by rewrite Hfile, Hdecode.
Qed.

(** C7: when the length check fails the conversion prints its message
    and returns; the file system is the one it started from. *)
Theorem C7_size_mismatch_writes_nothing (bitmap_data : list Z)
    (image_path : string) (output_path : option string) (w : World) :
  length bitmap_data ≠ 4096%nat →
  ∃ w', save_bitmap bitmap_data image_path output_path w = (Ok tt, w') ∧
    fs w' = fs w ∧
    stdout w' = stdout w ++ ["Error: Expected 4096 bytes, got "
                             +:+ pretty (length bitmap_data) +:+ " bytes."].
Proof.
  intros Hlen. eexists. split; [by apply save_bitmap_mismatch |]. done.
Qed.

(** The modes that the script does flatten come out opaque. *)
Lemma flattened_is_opaque {pil : Image.PIL} (contract : PILContract pil)
    (img : Image.t) :
  Image.mode img = "P" ∨ Image.mode img = "RGBA" →
  ∃ flat, alpha_flatten img = Ok flat ∧ ¬ has_transparency flat.
Proof.
  intros Hmode. unfold alpha_flatten, flatten_over_white.
  rewrite alpha_composite_white by apply convert_mode.
  replace (_ || _) with true by (destruct Hmode as [-> | ->]; done).
  eexists. split; [reflexivity |].
  intros (x & y & _ & _ & Halpha). revert Halpha.
  unfold alpha_at. simpl.
  destruct (Image.getdata (Image.convert img "RGBA") x y)
    as [| sr [| sg [| sb [| sa [| ? ?]]]]]; simpl; try lia.
  unfold Image.over.
  replace (255 * sa + 255 * (255 - sa)) with (255 * 255) by lia.
  rewrite Z.div_mul by lia. lia.
Qed.

(** C8, at a grayscale-with-alpha image: the guard of line 14 lets an
    ['LA'] image through unchanged, its transparent pixel included. *)
Theorem C8_gray_alpha_not_flattened {pil : Image.PIL} :
  alpha_flatten la_image = Ok la_image ∧ has_transparency la_image.
Proof.
  split; [done |]. exists 0%nat, 0%nat.
  unfold Image.width, Image.height, alpha_at. simpl. repeat split; lia.
Qed.

(** C5, at a fully transparent pixel of a grayscale-with-alpha image: its
    alpha is 0, yet lines 13-19 hand it to the grayscale conversion as it
    came, with intensity 0 and alpha 0, not as white; dropping the alpha
    band then gives intensity 0. *)
Theorem C5_gray_alpha_pixel_stays_black {pil : Image.PIL} :
  alpha_at la_image 0 0 = 0 ∧
  ∃ flat, alpha_flatten la_image = Ok flat ∧
    Image.getpixel flat (0, 0)%nat = Ok [0; 0] ∧
    Image.getpixel flat (0, 0)%nat ≠ Ok [255; 255] ∧
    Image.getpixel (ref_convert flat "L") (0, 0)%nat = Ok [0].
Proof.
  split; [reflexivity |]. exists la_image.
  split; [reflexivity |]. split; [reflexivity |]. split; [discriminate | reflexivity].
Qed.

(** C9: without an explicit output path the output path is the input
    path with its extension stripped and [-4bit.bin] appended, so
    [photo.png] gives [photo-4bit.bin]; an explicit output path is used as
    it is; the buffer is written at that path. *)
Theorem C9_output_path (dir base ext explicit : string) (buffer : list Z) (w : World) :
  has_char "/" base = false → all_dots base = false →
  has_char "/" ext = false → has_char "." ext = false →
  length buffer = 4096%nat → bytearray buffer = Ok buffer →
  let image_path := dir +:+ base +:+ "." +:+ ext in
  resolve_output_path image_path None = dir +:+ base +:+ "-4bit.bin" ∧
  resolve_output_path image_path (Some explicit) = explicit ∧
  resolve_output_path "photo.png" None = "photo-4bit.bin" ∧
  fs (save_bitmap buffer image_path None w).2
  = <[dir +:+ base +:+ "-4bit.bin" := buffer]> (fs w) ∧
  fs (save_bitmap buffer image_path (Some explicit) w).2
  = <[explicit := buffer]> (fs w).
Proof.
  intros Hbase_sep Hbase_dots Hext_sep Hext_dot Hlen Hbytes image_path.
  assert (resolve_output_path image_path None = dir +:+ base +:+ "-4bit.bin") as Hdefault.
  { unfold resolve_output_path, image_path.
    rewrite splitext_extension by done. simpl. apply str_app_assoc. }
  split; [done |]. split; [done |]. split; [done |].
  rewrite !save_bitmap_ok by done. cbn [snd fs]. by rewrite Hdefault.
Qed.

(** ** The theorems at concrete inputs *)

Lemma C1_witness :
  is_gray gradient ∧ Image.size gradient = (128, 64)%nat ∧
  ∃ buffer, pack_bitmap gradient = Ok buffer ∧ length buffer = 4096%nat ∧
    ∀ x y, (y < 64)%nat → (x < 128)%nat → Nat.Even x →
      ∃ left right byte,
        Image.getpixel gradient (x, y) = Ok [left] ∧
        Image.getpixel gradient ((x + 1)%nat, y) = Ok [right] ∧
        buffer !! (y * 64 + x / 2)%nat = Some byte ∧
        byte = Z.lor (Z.shiftl (process_pixel left) 4) (process_pixel right) ∧
        high_nibble byte = process_pixel left ∧
        low_nibble byte = process_pixel right.
Proof.
  split; [exact gradient_is_gray |]. split; [reflexivity |].
  apply (C1_packed_layout gradient); [exact gradient_is_gray | reflexivity].
Defined.

Lemma C2_witness :
  fs (world0 [("a/photo.png", gray_file)]) !! "a/photo.png" = Some gray_file ∧
  raw_decode gray_file = Some gray_image ∧
  nonempty gray_image ∧
  ∃ flat buffer,
    alpha_flatten (pil := ref_pil) gray_image = Ok flat ∧
    pack_bitmap (ref_resize (ref_convert flat "L") (128, 64)%nat) = Ok buffer ∧
    length buffer = 4096%nat ∧
    convert_image_to_4bit_grayscale (pil := ref_pil) "a/photo.png" None
      (world0 [("a/photo.png", gray_file)])
    = (Ok tt,
       {| fs := <["a/photo-4bit.bin" := buffer]>
                  (fs (world0 [("a/photo.png", gray_file)]));
          stdout := ["Image successfully converted and saved to a/photo-4bit.bin"] |}).
Proof.
  assert (nonempty gray_image) as Hne
    by (unfold nonempty, Image.width, Image.height; simpl; lia).
  split; [reflexivity |]. split; [reflexivity |]. split; [exact Hne |].
  apply (C2_buffer_length ref_pil_contract "a/photo.png" None
           (world0 [("a/photo.png", gray_file)]) gray_file gray_image);
    [reflexivity | reflexivity | exact Hne].
Defined.

Lemma C3_witness :
  process_pixel 17 = Z.quot 17 16 ∧
  process_pixel 17 = 17 / 16 ∧
  process_pixel 17 ≤ process_pixel 255 ∧
  0 ≤ process_pixel 17 ≤ 15 ∧
  ∃ v, 0 ≤ v ≤ 255 ∧ process_pixel v = 15.
Proof. apply (C3_quantize 17 255 15); lia. Defined.

Lemma C4_witness : unpack (combined_byte 10 5) = (10, 5).
Proof. apply (C4_nibble_roundtrip 10 5); lia. Defined.

Lemma flatten_transparent_witness :
  Image.getpixel (ref_convert rgba_image "RGBA") (0, 0)%nat = Ok [10; 20; 30; 0] ∧
  ∃ flat, flatten_over_white (pil := ref_pil) rgba_image = Ok flat ∧
    Image.getpixel flat (0, 0)%nat = Ok [255; 255; 255; 255] ∧
    (Image.mode rgba_image = "P" ∨ Image.mode rgba_image = "RGBA" →
     alpha_flatten (pil := ref_pil) rgba_image = Ok flat).
Proof.
  split; [reflexivity |].
  apply (flatten_transparent_is_white ref_pil_contract rgba_image 0 0 10 20 30).
  reflexivity.
Defined.

Lemma C6_witness :
  fs broken_world !! "broken.png" = Some [9] ∧
  raw_decode [9] = None ∧
  convert_image_to_4bit_grayscale (pil := ref_pil) "broken.png" None broken_world
  = (Raise UnidentifiedImageError, broken_world).
Proof.
  split; [reflexivity |]. split; [reflexivity |].
  apply (C6_decode_failure_propagates (pil := ref_pil) "broken.png" None
           broken_world [9]); reflexivity.
Defined.

(** C6 as the spec states it fails: on a file that does not decode the
    conversion does not return to its caller with an error reported, the
    decoder's exception passes through it. *)
Lemma C6_counterexample :
  fs broken_world !! "broken.png" = Some [9] ∧
  Image.decode (PIL := ref_pil) [9] = None ∧
  convert_image_to_4bit_grayscale (pil := ref_pil) "broken.png" None broken_world
  = (Raise UnidentifiedImageError, broken_world) ∧
  ¬ ∃ w', convert_image_to_4bit_grayscale (pil := ref_pil) "broken.png" None
            broken_world = (Ok tt, w').
Proof.
  split; [reflexivity |]. split; [reflexivity |]. split; [reflexivity |].
  intros [w' Hw']. discriminate Hw'.
Qed.

Lemma C7_witness :
  length [1; 2; 3] ≠ 4096%nat ∧
  ∃ w', save_bitmap [1; 2; 3] "photo.png" None broken_world = (Ok tt, w') ∧
    fs w' = fs broken_world ∧
    stdout w' = stdout broken_world ++ ["Error: Expected 4096 bytes, got "
                                        +:+ pretty (length [1; 2; 3]) +:+ " bytes."].
Proof.
  assert (length [1; 2; 3] ≠ 4096%nat) as Hlen by (simpl; lia).
  split; [exact Hlen |].
  apply (C7_size_mismatch_writes_nothing [1; 2; 3] "photo.png" None broken_world Hlen).
Defined.

Lemma C9_witness :
  let image_path := "pics/" +:+ "photo" +:+ "." +:+ "png" in
  resolve_output_path image_path None = "pics/" +:+ "photo" +:+ "-4bit.bin" ∧
  resolve_output_path image_path (Some "out.bin") = "out.bin" ∧
  resolve_output_path "photo.png" None = "photo-4bit.bin" ∧
  fs (save_bitmap (replicate 4096 255) image_path None broken_world).2
  = <["pics/" +:+ "photo" +:+ "-4bit.bin" := replicate 4096 255]> (fs broken_world) ∧
  fs (save_bitmap (replicate 4096 255) image_path (Some "out.bin") broken_world).2
  = <["out.bin" := replicate 4096 255]> (fs broken_world).
Proof.
  apply (C9_output_path "pics/" "photo" "png" "out.bin" (replicate 4096 255)
           broken_world); reflexivity.
Defined.

Lemma C10_witness :
  is_gray gradient ∧ Image.size gradient = (128, 64)%nat ∧
  ∃ buffer, pack_bitmap gradient = Ok buffer ∧
    (∀ i b, buffer !! i = Some b →
       ∃ v1 v2, 0 ≤ v1 ≤ 255 ∧ 0 ≤ v2 ≤ 255 ∧
         b = Z.lor (Z.shiftl (v1 / 16) 4) (v2 / 16) ∧ 0 ≤ b ≤ 255) ∧
    bytearray buffer = Ok buffer.
Proof.
  split; [exact gradient_is_gray |]. split; [reflexivity |].
  apply (C10_bytes_fit gradient); [exact gradient_is_gray | reflexivity].
Defined.

(** The same fully transparent black pixel, once in an ['RGBA'] file and
    once in an ['LA'] file: the first is written as white, the second as
    black. *)
Lemma transparent_rgba_white_la_black :
  fs (convert_image_to_4bit_grayscale (pil := ref_pil) "t.png" (Some "o.bin")
        (world0 [("t.png", rgba_file)])).2 !! "o.bin" = Some (replicate 4096 255) ∧
  fs (convert_image_to_4bit_grayscale (pil := ref_pil) "t.png" (Some "o.bin")
        (world0 [("t.png", la_file)])).2 !! "o.bin" = Some (replicate 4096 0).
Proof. split; vm_compute; reflexivity. Qed.


(** ** Further properties of the quantizer and the packer *)

(** X1: for every integer, the quantizer returns the index of the
    16-wide bin the value lies in: [process_pixel v = q] exactly when
    [16*q <= v < 16*q + 16]. *)
Theorem X1_quantize_bin (v q : Z) :
  process_pixel v = q ↔ 16 * q ≤ v < 16 * q + 16.
Proof.
  unfold process_pixel.
  pose proof (Z.div_mod v 16) as Hdiv.
  pose proof (Z.mod_pos_bound v 16) as Hmod.
  split; [intros <-; lia |].
  intros Hbin. symmetry. apply (Z.div_unique v 16 q (v - 16 * q)); lia.
Qed.

(** X2: every byte is the packing of its own two nibbles. *)
Theorem X2_byte_is_packed_nibbles (byte : Z) :
  0 ≤ byte ≤ 255 →
  combined_byte (high_nibble byte) (low_nibble byte) = byte ∧
  0 ≤ high_nibble byte ≤ 15 ∧ 0 ≤ low_nibble byte ≤ 15.
Proof.
  intros Hbyte.
  assert (high_nibble byte = byte / 16) as Hhigh.
  { unfold high_nibble. rewrite Z.shiftr_div_pow2 by lia.
    change 15 with (Z.ones 4). rewrite Z.land_ones by lia.
    change (2 ^ 4) with 16. apply Z.mod_small.
    split; [apply Z.div_pos; lia | apply Z.div_lt_upper_bound; lia]. }
  assert (low_nibble byte = byte mod 16) as Hlow.
  { unfold low_nibble. change 15 with (Z.ones 4). by rewrite Z.land_ones by lia. }
  pose proof (Z.div_mod byte 16) as Hdiv.
  pose proof (Z.mod_pos_bound byte 16) as Hmod.
  rewrite combined_byte_add by (rewrite Hlow; lia).
  rewrite Hhigh, Hlow. repeat split; lia.
Qed.

Lemma X2_witness :
  0 ≤ 165 ≤ 255 ∧
  combined_byte (high_nibble 165) (low_nibble 165) = 165 ∧
  0 ≤ high_nibble 165 ≤ 15 ∧ 0 ≤ low_nibble 165 ≤ 15.
Proof. split; [lia |]. apply (X2_byte_is_packed_nibbles 165). lia. Defined.

Lemma for_in_raise {A S : Type} (xs : list A) (body : A → S → result S) (e : exn) :
  (∀ x s, x ∈ xs → (∃ s', body x s = Ok s') ∨ body x s = Raise e) →
  (∃ x, x ∈ xs ∧ ∀ s, body x s = Raise e) →
  ∀ s, for_in xs body s = Raise e.
Proof.
  induction xs as [| a xs IH]; intros Hall (x & Hin & Hbad) s.
  - by apply elem_of_nil in Hin.
  - simpl. destruct (Hall a s) as [[s' Hs'] | Hraise]; [by left | |].
    + rewrite Hs'. simpl. apply IH.
      * intros x' s'' Hx'. apply Hall. by right.
      * apply elem_of_cons in Hin as [-> | Hin]; [| by exists x].
        rewrite Hbad in Hs'. discriminate Hs'.
    + by rewrite Hraise.
Qed.

(** Lines 34-45 on a single-band image: the pair at [(x, y)] is appended
    when both pixels are inside the image, else [getpixel] raises. *)
Lemma pack_pair_gray (img : Image.t) (x y : nat) (acc : list Z) :
  gray_pixels img →
  (pixel_value1 ← Image.getpixel img (x, y) ≫= as_int;
   let first_pixel := process_pixel pixel_value1 in
   pixel_value2 ← Image.getpixel img ((x + 1)%nat, y) ≫= as_int;
   let second_pixel := process_pixel pixel_value2 in
   Ok (acc ++ [combined_byte first_pixel second_pixel]))
  = if bool_decide ((x + 1 < Image.width img)%nat ∧ (y < Image.height img)%nat)
    then Ok (acc ++ [packed_pair img y x]) else Raise IndexError.
Proof.
  intros Hgray.
  assert (∀ x', (x' < Image.width img)%nat → (y < Image.height img)%nat →
            Image.getpixel img (x', y) ≫= as_int = Ok (intensity img x' y)) as Hin.
  { intros x' Hx Hy. unfold Image.getpixel, intensity. simpl.
    rewrite bool_decide_eq_true_2 by done.
    by destruct (Hgray x' y) as (v & -> & _). }
  assert (∀ x', ¬ ((x' < Image.width img)%nat ∧ (y < Image.height img)%nat) →
            Image.getpixel img (x', y) ≫= as_int = Raise IndexError) as Hout.
  { intros x' Hout. unfold Image.getpixel. simpl.
    by rewrite bool_decide_eq_false_2. }
  destruct (decide ((x + 1 < Image.width img)%nat ∧ (y < Image.height img)%nat))
    as [[Hx Hy] | Hnot].
  - rewrite bool_decide_eq_true_2 by done.
    by rewrite (Hin x), (Hin (x + 1)%nat) by lia.
  - rewrite bool_decide_eq_false_2 by done.
    destruct (decide ((x < Image.width img)%nat ∧ (y < Image.height img)%nat))
      as [[Hx Hy] | Hfirst].
    + rewrite (Hin x) by done. simpl. rewrite (Hout (x + 1)%nat); [done | lia].
    + by rewrite (Hout x).
Qed.

Lemma pack_row_gray (img : Image.t) (y : nat) (acc : list Z) :
  gray_pixels img →
  for_in (range_step 0 128 2) (fun x bitmap_data =>
      pixel_value1 ← Image.getpixel img (x, y) ≫= as_int;
      let first_pixel := process_pixel pixel_value1 in
      pixel_value2 ← Image.getpixel img ((x + 1)%nat, y) ≫= as_int;
      let second_pixel := process_pixel pixel_value2 in
      Ok (bitmap_data ++ [combined_byte first_pixel second_pixel])) acc
  = if bool_decide ((128 ≤ Image.width img)%nat ∧ (y < Image.height img)%nat)
    then Ok (acc ++ (packed_pair img y <$> range_step 0 128 2))
    else Raise IndexError.
Proof.
  intros Hgray. case_bool_decide as Hrow.
  - rewrite (for_in_collect _ _ (fun x => [packed_pair img y x])).
    + by rewrite join_singletons.
    + intros x acc' Hx. apply range_step_even in Hx as (k & Hk & ->).
      rewrite pack_pair_gray by done. rewrite bool_decide_eq_true_2; [done | lia].
  - apply for_in_raise.
    + intros x s _. rewrite pack_pair_gray by done.
      case_bool_decide; [left; eauto | by right].
    + exists (2 * ((Image.width img `min` 126) / 2))%nat. split.
      * apply range_step_even. eexists. split; [| reflexivity].
        apply Nat.Div0.div_lt_upper_bound. lia.
      * intros s. rewrite pack_pair_gray by done.
        rewrite bool_decide_eq_false_2; [done |]. intros [Hx Hy].
        assert (Image.width img < 128)%nat as Hw by lia.
        pose proof (Nat.div_mod_eq (Image.width img `min` 126) 2) as Hdm.
        pose proof (Nat.mod_upper_bound (Image.width img `min` 126) 2). lia.
Qed.

(** Lines 27-45 on any single-band image: the rows of the top-left
    128x64 window when the image covers it, [IndexError] when it does not. *)
Lemma pack_bitmap_gray (img : Image.t) :
  gray_pixels img →
  pack_bitmap img
  = if bool_decide ((128 ≤ Image.width img)%nat ∧ (64 ≤ Image.height img)%nat)
    then Ok (packed_rows img) else Raise IndexError.
Proof.
  intros Hgray. unfold pack_bitmap. case_bool_decide as Hcover.
  - rewrite (for_in_collect _ _ (fun y => packed_pair img y <$> range_step 0 128 2)).
    + done.
    + intros y acc Hy. apply elem_of_seq in Hy.
      rewrite pack_row_gray by done. rewrite bool_decide_eq_true_2; [done | lia].
  - apply for_in_raise.
    + intros y s _. rewrite pack_row_gray by done.
      case_bool_decide; [left; eauto | by right].
    + exists (Image.height img `min` 63)%nat. split.
      * apply elem_of_seq. lia.
      * intros s. rewrite pack_row_gray by done.
        rewrite bool_decide_eq_false_2; [done | lia].
Qed.

Lemma for_in_first {A S : Type} (x : A) (xs : list A) (body : A → S → result S)
    (s : S) (e : exn) :
  body x s = Raise e → for_in (x :: xs) body s = Raise e.
Proof. intros Hraise. simpl. by rewrite Hraise. Qed.

Lemma gray_intensity (img : Image.t) (x y : nat) :
  gray_pixels img → (x < Image.width img)%nat → (y < Image.height img)%nat →
  Image.getdata img x y = [intensity img x y] ∧ 0 ≤ intensity img x y ≤ 255.
Proof.
  intros Hgray Hx Hy. unfold intensity.
  by destruct (Hgray x y Hx Hy) as (v & -> & Hv).
Qed.

Lemma gray_image_pixels : gray_pixels gray_image.
Proof.
  intros x y Hx Hy. unfold Image.width, Image.height in *. simpl in *.
  assert (y = 0%nat) as -> by lia.
  destruct x as [| [| x]]; [| | lia]; eexists; (split; [reflexivity | lia]).
Qed.

Lemma coarse_gradient_pixels : gray_pixels coarse_gradient.
Proof.
  intros x y _ _. eexists. split; [reflexivity |].
  assert (0 ≤ Z.of_nat ((2 * x + 3 * y) mod 256) ≤ 255) as Hg.
  { pose proof (Nat.mod_upper_bound (2 * x + 3 * y) 256). lia. }
  revert Hg. generalize (Z.of_nat ((2 * x + 3 * y) mod 256)). intros g Hg.
  pose proof (Z.div_mod g 16). pose proof (Z.mod_pos_bound g 16). lia.
Qed.

(** X3: on a single-band image narrower than 128 or lower than 64 pixels
    the packer raises [IndexError]; it never returns a shorter buffer. *)
Theorem X3_small_image_index_error (img : Image.t) :
  gray_pixels img →
  (Image.width img < 128 ∨ Image.height img < 64)%nat →
  pack_bitmap img = Raise IndexError.
Proof.
  intros Hgray Hsmall. rewrite pack_bitmap_gray by done.
  rewrite bool_decide_eq_false_2; [done | lia].
Qed.

Lemma X3_witness :
  gray_pixels gray_image ∧
  (Image.width gray_image < 128 ∨ Image.height gray_image < 64)%nat ∧
  pack_bitmap gray_image = Raise IndexError.
Proof.
  assert (Image.width gray_image < 128 ∨ Image.height gray_image < 64)%nat as Hsmall
    by (left; unfold Image.width; simpl; lia).
  split; [exact gray_image_pixels |]. split; [exact Hsmall |].
  exact (X3_small_image_index_error gray_image gray_image_pixels Hsmall).
Defined.

(** X4: when the pixel at [(0, 0)] is a tuple and not a number (the image
    has several bands) the packer raises [TypeError] at its first pixel. *)
Theorem X4_tuple_pixel_type_error (img : Image.t) :
  nonempty img →
  (∀ v, Image.getdata img 0 0 ≠ [v]) →
  pack_bitmap img = Raise TypeError.
Proof.
  intros [Hw Hh] Htuple. unfold pack_bitmap.
  change (range 64) with (0%nat :: seq 1 63).
  apply for_in_first.
  change (range_step 0 128 2)
    with (0%nat :: ((fun k => (0 + k * 2)%nat) <$> seq 1 63)).
  apply for_in_first.
  unfold Image.getpixel, Image.width, Image.height in *. simpl.
  assert (bool_decide ((0 < (Image.size img).1)%nat ∧ (0 < (Image.size img).2)%nat)
          = true) as -> by (apply bool_decide_eq_true_2; lia).
  simpl.
  destruct (Image.getdata img 0 0) as [| v [| v' rest]]; [done | | done].
  by destruct (Htuple v).
Qed.

Lemma X4_witness :
  nonempty (Image.new "RGB" (128, 64)%nat [1; 2; 3]) ∧
  (∀ v, Image.getdata (Image.new "RGB" (128, 64)%nat [1; 2; 3]) 0 0 ≠ [v]) ∧
  pack_bitmap (Image.new "RGB" (128, 64)%nat [1; 2; 3]) = Raise TypeError.
Proof.
  assert (nonempty (Image.new "RGB" (128, 64)%nat [1; 2; 3])) as Hne
    by (unfold nonempty, Image.width, Image.height; simpl; lia).
  assert (∀ v, Image.getdata (Image.new "RGB" (128, 64)%nat [1; 2; 3]) 0 0 ≠ [v])
    as Htuple by (intros v; discriminate).
  split; [exact Hne |]. split; [exact Htuple |].
  exact (X4_tuple_pixel_type_error _ Hne Htuple).
Defined.

(** X5: the buffer depends only on the quantized pixels of the top-left
    128x64 window: two single-band images that cover the window and agree
    there after quantization pack to the same buffer, whatever their low
    four bits, their sizes and their pixels outside the window. *)
Theorem X5_window_high_nibbles (img1 img2 : Image.t) :
  gray_pixels img1 → gray_pixels img2 →
  (128 ≤ Image.width img1)%nat → (64 ≤ Image.height img1)%nat →
  (128 ≤ Image.width img2)%nat → (64 ≤ Image.height img2)%nat →
  (∀ x y, (x < 128)%nat → (y < 64)%nat →
     process_pixel (intensity img1 x y) = process_pixel (intensity img2 x y)) →
  ∃ buffer, pack_bitmap img1 = Ok buffer ∧ pack_bitmap img2 = Ok buffer ∧
    length buffer = 4096%nat.
Proof.
  intros Hgray1 Hgray2 Hw1 Hh1 Hw2 Hh2 Hsame.
  rewrite !pack_bitmap_gray by done.
  rewrite !bool_decide_eq_true_2 by done.
  exists (packed_rows img1). split; [done |]. split; [| apply packed_rows_length].
  f_equal. unfold packed_rows. f_equal.
  apply list_fmap_ext. intros i y Hy. apply lookup_seq in Hy as [-> Hi].
  apply list_fmap_ext. intros j x Hx.
  apply list_elem_of_lookup_2, range_step_even in Hx as (k & Hk & ->).
  unfold packed_pair. by rewrite !Hsame by lia.
Qed.

Lemma X5_witness :
  ∃ buffer, pack_bitmap gradient = Ok buffer ∧
    pack_bitmap coarse_gradient = Ok buffer ∧ length buffer = 4096%nat.
Proof.
  apply (X5_window_high_nibbles gradient coarse_gradient).
  - exact (proj2 gradient_is_gray).
  - exact coarse_gradient_pixels.
  - unfold Image.width. simpl. lia.
  - unfold Image.height. simpl. lia.
  - unfold Image.width. simpl. lia.
  - unfold Image.height. simpl. lia.
  - intros x y _ _. unfold intensity, process_pixel. simpl.
    by rewrite Z.mul_comm, Z.div_mul.
Defined.

(** X6: a single-band image whose window has one intensity [v] packs to
    4096 equal bytes [17 * (v // 16)]: zero bytes for black, [0xFF] for
    white. *)
Theorem X6_uniform_image (img : Image.t) (v : Z) :
  gray_pixels img →
  (128 ≤ Image.width img)%nat → (64 ≤ Image.height img)%nat →
  (∀ x y, (x < 128)%nat → (y < 64)%nat → intensity img x y = v) →
  pack_bitmap img = Ok (replicate 4096 (17 * process_pixel v)).
Proof.
  intros Hgray Hw Hh Hv.
  rewrite pack_bitmap_gray by done. rewrite bool_decide_eq_true_2 by done.
  f_equal. unfold packed_rows.
  assert (0 ≤ process_pixel v ≤ 15) as Hq.
  { destruct (gray_intensity img 0 0 Hgray) as [_ Hrange]; [lia | lia |].
    rewrite Hv in Hrange by lia. by apply process_pixel_range. }
  rewrite (list_fmap_ext _ (fun _ => replicate 64 (17 * process_pixel v))).
  - reflexivity.
  - intros i y Hy. apply lookup_seq in Hy as [-> Hi].
    rewrite (const_fmap _ _ (17 * process_pixel v)); [reflexivity |].
    intros j x Hx.
    apply list_elem_of_lookup_2, range_step_even in Hx as (k & Hk & ->).
    unfold packed_pair. rewrite !Hv by lia.
    rewrite combined_byte_add by lia. lia.
Qed.

Lemma X6_witness :
  pack_bitmap (Image.new "L" (128, 64)%nat [255]) = Ok (replicate 4096 (17 * process_pixel 255)).
Proof.
  apply (X6_uniform_image (Image.new "L" (128, 64)%nat [255]) 255).
  - intros x y _ _. exists 255. split; [reflexivity | lia].
  - unfold Image.width. simpl. lia.
  - unfold Image.height. simpl. lia.
  - reflexivity.
Defined.

(** ** Further properties of saving and of the output path *)

Lemma bytearray_out_of_range (items : list Z) (i : nat) (b : Z) :
  items !! i = Some b → ¬ (0 ≤ b ≤ 255) → bytearray items = Raise ValueError.
Proof.
  intros Hi Hb. unfold bytearray.
  destruct (forallb _ items) eqn:Hall; [| done].
  rewrite forallb_forall in Hall.
  specialize (Hall b). rewrite <- list_elem_of_In in Hall.
  apply list_elem_of_lookup_2, Hall in Hi.
  apply andb_true_iff in Hi as [Hlo%Z.leb_le Hhi%Z.ltb_lt]. lia.
Qed.

(** X7: a buffer of the right length that holds a value outside [0,255]
    makes [bytearray] raise [ValueError] after the output file was opened
    for writing: the file is left empty, created or truncated, and nothing
    is printed. *)
Theorem X7_bad_item_leaves_empty_file (bitmap_data : list Z) (image_path : string)
    (output_path : option string) (w : World) (i : nat) (b : Z) :
  length bitmap_data = 4096%nat →
  bitmap_data !! i = Some b → ¬ (0 ≤ b ≤ 255) →
  save_bitmap bitmap_data image_path output_path w
  = (Raise ValueError,
     {| fs := <[resolve_output_path image_path output_path := []]> (fs w);
        stdout := stdout w |}).
Proof.
  intros Hlen Hi Hb. unfold save_bitmap.
  rewrite bool_decide_eq_false_2 by (rewrite Hlen; intros Hne; by apply Hne).
  unfold mbind, M_bind, open_wb, lift. simpl.
  by rewrite (bytearray_out_of_range bitmap_data i b).
Qed.

Lemma X7_witness :
  length (replicate 4095 0 ++ [256]) = 4096%nat ∧
  (replicate 4095 0 ++ [256]) !! 4095%nat = Some 256 ∧
  ¬ (0 ≤ 256 ≤ 255) ∧
  save_bitmap (replicate 4095 0 ++ [256]) "photo.png" (Some "out.bin") broken_world
  = (Raise ValueError,
     {| fs := <["out.bin" := []]> (fs broken_world); stdout := stdout broken_world |}).
Proof.
  assert (¬ (0 ≤ 256 ≤ 255)) as Hb by lia.
  split; [reflexivity |]. split; [reflexivity |]. split; [exact Hb |].
  apply (X7_bad_item_leaves_empty_file (replicate 4095 0 ++ [256]) "photo.png"
           (Some "out.bin") broken_world 4095 256); [reflexivity | reflexivity | exact Hb].
Defined.

(** X8: when no file exists at the input path the conversion ends with
    [FileNotFoundError]; nothing is printed and the file system is as
    before. *)
Theorem X8_missing_input_file {pil : Image.PIL} (image_path : string)
    (output_path : option string) (w : World) :
  fs w !! image_path = None →
  convert_image_to_4bit_grayscale image_path output_path w
  = (Raise FileNotFoundError, w).
Proof.
  intros Hmissing.
  unfold convert_image_to_4bit_grayscale, Image.open, mbind, M_bind.
  by rewrite Hmissing.
Qed.

Lemma X8_witness :
  fs broken_world !! "photo.png" = None ∧
  convert_image_to_4bit_grayscale (pil := ref_pil) "photo.png" None broken_world
  = (Raise FileNotFoundError, broken_world).
Proof.
  split; [reflexivity |].
  apply (X8_missing_input_file (pil := ref_pil) "photo.png" None broken_world).
  reflexivity.
Defined.

Lemma save_bitmap_frame (bitmap_data : list Z) (image_path : string)
    (output_path : option string) (w : World) (p : string) :
  p ≠ resolve_output_path image_path output_path →
  fs (save_bitmap bitmap_data image_path output_path w).2 !! p = fs w !! p.
Proof.
  intros Hp. unfold save_bitmap. case_bool_decide; [done |].
  unfold mbind, M_bind, open_wb, lift, write, print. simpl.
  destruct (bytearray bitmap_data); simpl.
  - rewrite lookup_insert_ne by done. by rewrite lookup_insert_ne.
  - by rewrite lookup_insert_ne.
Qed.

(** X9: whatever the decoder, the arguments and the outcome, a run of the
    conversion leaves every file other than the output file as it was. *)
Theorem X9_touches_only_output {pil : Image.PIL} (image_path : string)
    (output_path : option string) (w : World) (p : string) :
  p ≠ resolve_output_path image_path output_path →
  fs (convert_image_to_4bit_grayscale image_path output_path w).2 !! p = fs w !! p.
Proof.
  intros Hp.
  unfold convert_image_to_4bit_grayscale, Image.open, mbind, M_bind, lift.
  destruct (fs w !! image_path) as [content |]; [| done].
  destruct (Image.decode content) as [img |]; [| done].
  destruct (alpha_flatten img) as [flat | e]; [| done].
  destruct (pack_bitmap _) as [bitmap_data | e]; [| done].
  by apply save_bitmap_frame.
Qed.

Lemma X9_witness :
  "a/photo.png" ≠ resolve_output_path "a/photo.png" None ∧
  fs (convert_image_to_4bit_grayscale (pil := ref_pil) "a/photo.png" None
        (world0 [("a/photo.png", gray_file)])).2 !! "a/photo.png"
  = fs (world0 [("a/photo.png", gray_file)]) !! "a/photo.png".
Proof.
  assert ("a/photo.png" ≠ resolve_output_path "a/photo.png" None) as Hp
    by (intros Heq; discriminate Heq).
  split; [exact Hp |].
  exact (X9_touches_only_output (pil := ref_pil) "a/photo.png" None
           (world0 [("a/photo.png", gray_file)]) "a/photo.png" Hp).
Defined.

Lemma str_take_drop (n : nat) (p : string) : str_take n p +:+ str_drop n p = p.
Proof.
  revert n. induction p as [| a p IH]; intros [| n]; try reflexivity.
  simpl. by rewrite app_cons, IH.
Qed.

Lemma str_drop_get (n : nat) (p : string) (c : ascii) :
  String.get n p = Some c → str_drop n p = String c (str_drop (S n) p).
Proof.
  revert n. induction p as [| a p IH]; intros [| n] Hget; simpl in *; try done.
  - injection Hget as ->. by destruct p.
  - rewrite (IH n Hget). by destruct p.
Qed.

Lemma rfind_get (p : string) (c : ascii) :
  0 ≤ rfind p c → String.get (Z.to_nat (rfind p c)) p = Some c.
Proof.
  induction p as [| a p IH]; simpl; [lia |].
  destruct (0 <=? rfind p c) eqn:Hr.
  - apply Z.leb_le in Hr. intros _.
    replace (Z.to_nat (rfind p c + 1)) with (S (Z.to_nat (rfind p c))) by lia.
    by apply IH.
  - case_bool_decide as Ha; [| lia]. intros _. by rewrite Ha.
Qed.

Lemma rfind_last (p : string) (c : ascii) (n : nat) :
  rfind p c < Z.of_nat n → has_char c (str_drop n p) = false.
Proof.
  revert n. induction p as [| a p IH]; intros n Hn; [by destruct n |].
  simpl in Hn. destruct n as [| n].
  - destruct (0 <=? rfind p c) eqn:Hr; [apply Z.leb_le in Hr; lia |].
    apply Z.leb_gt in Hr. case_bool_decide as Ha; [lia |].
    simpl. rewrite bool_decide_eq_false_2 by done. simpl.
    apply (IH 0%nat). lia.
  - simpl. apply IH.
    destruct (0 <=? rfind p c) eqn:Hr; [lia |]. apply Z.leb_gt in Hr. lia.
Qed.

Lemma str_app_nil_r (p : string) : p +:+ EmptyString = p.
Proof. induction p as [| a p IH]; [done |]. by rewrite app_cons, IH. Qed.

(** What [splitext] returns: the two parts make up the path, and the
    second is empty or one dot followed by neither dot nor separator. *)
Lemma splitext_parts (p : string) :
  (splitext p).1 +:+ (splitext p).2 = p ∧
  ((splitext p).2 = EmptyString ∨
   ∃ e, (splitext p).2 = String "." e ∧
        has_char "." e = false ∧ has_char "/" e = false).
Proof.
  unfold splitext.
  destruct (_ && _) eqn:Hcond; simpl.
  2: { split; [apply str_app_nil_r | by left]. }
  apply andb_true_iff in Hcond as [Hlt%Z.ltb_lt _].
  pose proof (rfind_bounds p "/") as Hsep.
  split; [apply str_take_drop |]. right.
  exists (str_drop (S (Z.to_nat (rfind p "."))) p).
  split; [apply str_drop_get, rfind_get; lia |]. split.
  - apply rfind_last. lia.
  - pose proof (rfind_last p "/" (Z.to_nat (rfind p "."))) as Hno.
    rewrite (str_drop_get _ _ "."%char) in Hno by (apply rfind_get; lia).
    simpl in Hno. apply Hno. lia.
Qed.

(** X10: for every input path, the default output path is the input path
    with a suffix removed and [-4bit.bin] put in its place; the suffix is
    empty or a dot followed by characters other than the dot and the
    separator, so the output lies beside the input; and the default output
    path is never the input path itself. *)
Theorem X10_default_path_shape (image_path : string) :
  ∃ stem ext,
    image_path = stem +:+ ext ∧
    resolve_output_path image_path None = stem +:+ "-4bit.bin" ∧
    (ext = EmptyString ∨
     ∃ e, ext = String "." e ∧ has_char "." e = false ∧ has_char "/" e = false) ∧
    resolve_output_path image_path None ≠ image_path.
Proof.
  destruct (splitext_parts image_path) as [Hparts Hext].
  exists (splitext image_path).1, (splitext image_path).2.
  split; [done |]. split; [done |]. split; [exact Hext |].
  unfold resolve_output_path. simpl. intros Heq.
  assert ((splitext image_path).1 +:+ "-4bit.bin"
          = (splitext image_path).1 +:+ (splitext image_path).2) as Hsame
    by (by rewrite Hparts).
  clear Heq. apply (inj (String.app _)) in Hsame as Heq.
  destruct Hext as [Hext | (e & Hext & _)]; rewrite Hext in Heq; discriminate Heq.
Qed.

(** ** Further properties of the whole conversion *)

(** A file that decodes is converted to a buffer that depends on its
    content alone, in whatever world and to whatever path. *)
Lemma convert_run {pil : Image.PIL} (contract : PILContract pil)
    (content : list Z) (img : Image.t) :
  Image.decode content = Some img → nonempty img →
  ∃ buffer, length buffer = 4096%nat ∧
    ∀ image_path output_path w, fs w !! image_path = Some content →
      convert_image_to_4bit_grayscale image_path output_path w
      = (Ok tt,
         {| fs := <[resolve_output_path image_path output_path := buffer]> (fs w);
            stdout := stdout w ++ ["Image successfully converted and saved to "
                                   +:+ resolve_output_path image_path output_path] |}).
Proof.
  intros Hdecode [Hw Hh].
  destruct (alpha_flatten_ok contract img) as (flat & Hflat & Hsize).
  set (gray := Image.convert flat "L").
  assert (is_gray gray) as Hgray
    by (split; [apply convert_mode | apply convert_L_pixels]).
  assert (nonempty gray) as Hne.
  { unfold nonempty, Image.width, Image.height, gray.
    by rewrite convert_size, Hsize. }
  set (small := Image.resize gray (128, 64)%nat).
  pose proof (resize_gray gray (128, 64)%nat Hgray Hne) as Hsmall.
  pose proof (resize_size gray (128, 64)%nat Hgray Hne) as Hsmall_size.
  exists (packed_rows small). split; [apply packed_rows_length |].
  intros image_path output_path w Hfile.
  unfold convert_image_to_4bit_grayscale, Image.open, mbind, M_bind, lift.
  rewrite Hfile, Hdecode, Hflat. fold gray. fold small.
  rewrite (pack_bitmap_rows small Hsmall Hsmall_size).
  apply save_bitmap_ok; [apply packed_rows_length |].
  apply bytearray_in_range. intros i b. by apply packed_rows_range.
Qed.




(** X12: given its own input path as the output path, a successful run
    replaces the source image by the 4096-byte bitmap. *)
Theorem X12_output_onto_input {pil : Image.PIL} (contract : PILContract pil)
    (image_path : string) (w : World) (content : list Z) (img : Image.t) :
  fs w !! image_path = Some content →
  Image.decode content = Some img →
  nonempty img →
  ∃ buffer, length buffer = 4096%nat ∧
    fs (convert_image_to_4bit_grayscale image_path (Some image_path) w).2
      !! image_path = Some buffer.
Proof.
  intros Hfile Hdecode Hne.
  destruct (convert_run contract content img Hdecode Hne) as (buffer & Hlen & Hrun).
  exists buffer. split; [done |].
  rewrite Hrun by done. simpl. apply lookup_insert_eq.
Qed.

Lemma X12_witness :
  ∃ buffer, length buffer = 4096%nat ∧
    fs (convert_image_to_4bit_grayscale (pil := ref_pil) "a/photo.png"
          (Some "a/photo.png") (world0 [("a/photo.png", gray_file)])).2
      !! "a/photo.png" = Some buffer.
Proof.
  apply (X12_output_onto_input ref_pil_contract "a/photo.png"
           (world0 [("a/photo.png", gray_file)]) gray_file gray_image).
  - reflexivity.
  - reflexivity.
  - unfold nonempty, Image.width, Image.height. simpl. lia.
Defined.

(** ** The command line *)

(** With an input argument that is not taken for the help flag, the script
    converts it, to the next argument when there is one. *)
Lemma main_runs {pil : Image.PIL} (prog input : string) (rest : list string)
    (w : World) :
  rest ≠ [] ∨ (input ≠ "-h" ∧ input ≠ "--help") →
  main (prog :: input :: rest) w
  = (ending (convert_image_to_4bit_grayscale input (head rest) w).1,
     (convert_image_to_4bit_grayscale input (head rest) w).2).
Proof.
  intros Hrun. unfold main.
  assert (bool_decide (length (prog :: input :: rest) = 2%nat)
          && bool_decide ((prog :: input :: rest) !! 1%nat = Some "-h"
                          ∨ (prog :: input :: rest) !! 1%nat = Some "--help")
          = false) as ->.
  { apply andb_false_iff. destruct Hrun as [Hrest | [Hh Hhelp]].
    - left. apply bool_decide_eq_false_2. destruct rest; [done | simpl; lia].
    - right. apply bool_decide_eq_false_2. simpl. intros [[=] | [=]]; done. }
  rewrite bool_decide_eq_false_2 by (simpl; lia). simpl.
  destruct rest as [| output rest]; simpl.
  - by destruct (convert_image_to_4bit_grayscale input None w).
  - by destruct (convert_image_to_4bit_grayscale input (Some output) w).
Qed.

(** X13: called with the help flag as its only argument, the script
    prints the usage text and exits with status 0; it opens no file and
    writes none. *)
Theorem X13_help_flag {pil : Image.PIL} (prog flag : string) (w : World) :
  flag = "-h" ∨ flag = "--help" →
  main [prog; flag] w
  = (SystemExit 0, {| fs := fs w; stdout := stdout w ++ [usage_text] |}).
Proof. intros [-> | ->]; reflexivity. Qed.

Lemma X13_witness :
  main (pil := ref_pil) ["script.py"; "--help"] broken_world
  = (SystemExit 0, {| fs := fs broken_world;
                      stdout := stdout broken_world ++ [usage_text] |}).
Proof. apply (X13_help_flag (pil := ref_pil) "script.py" "--help"). by right. Defined.

(** X14: called without an input argument, the script prints the error
    line and the usage text and exits with status 1; the file system is
    as before. *)
Theorem X14_missing_argument {pil : Image.PIL} (argv : list string) (w : World) :
  (length argv < 2)%nat →
  main argv w
  = (SystemExit 1,
     {| fs := fs w;
        stdout := stdout w ++ ["Error: Input image is required."; usage_text] |}).
Proof.
  intros Hlen. unfold main.
  rewrite (bool_decide_eq_false_2 (length argv = 2%nat)) by lia.
  rewrite (bool_decide_eq_true_2 (length argv < 2)%nat) by done. simpl.
  by rewrite <- app_assoc.
Qed.

Lemma X14_witness :
  (length ["script.py"] < 2)%nat ∧
  main (pil := ref_pil) ["script.py"] broken_world
  = (SystemExit 1,
     {| fs := fs broken_world;
        stdout := stdout broken_world
                  ++ ["Error: Input image is required."; usage_text] |}).
Proof.
  assert (length ["script.py"] < 2)%nat as Hlen by (simpl; lia).
  split; [exact Hlen |].
  exact (X14_missing_argument (pil := ref_pil) ["script.py"] broken_world Hlen).
Defined.

(** X15: with an output argument the script converts its first argument
    to its second; arguments after the second are ignored, and the help
    flag in first place is taken for an input path. *)
Theorem X15_output_argument {pil : Image.PIL} (prog input output : string)
    (rest : list string) (w : World) :
  main (prog :: input :: output :: rest) w
  = (ending (convert_image_to_4bit_grayscale input (Some output) w).1,
     (convert_image_to_4bit_grayscale input (Some output) w).2) ∧
  main (prog :: input :: output :: rest) w = main [prog; input; output] w.
Proof.
  split.
  - by rewrite main_runs by (by left).
  - by rewrite !main_runs by (by left).
Qed.

(** X16: called with one argument other than [-h] and [--help], the
    script converts that argument with no output path given, so to the
    default output path, and ends as the conversion ends: at its last
    line when the conversion returns, with a traceback when it raises. *)
Theorem X16_one_argument {pil : Image.PIL} (prog input : string) (w : World) :
  input ≠ "-h" → input ≠ "--help" →
  main [prog; input] w
  = (ending (convert_image_to_4bit_grayscale input None w).1,
     (convert_image_to_4bit_grayscale input None w).2).
Proof. intros Hh Hhelp. by rewrite main_runs by (by right). Qed.

Lemma X16_witness :
  "a/photo.png" ≠ "-h" ∧ "a/photo.png" ≠ "--help" ∧
  main (pil := ref_pil) ["script.py"; "a/photo.png"]
    (world0 [("a/photo.png", gray_file)])
  = (ending (convert_image_to_4bit_grayscale (pil := ref_pil) "a/photo.png" None
               (world0 [("a/photo.png", gray_file)])).1,
     (convert_image_to_4bit_grayscale (pil := ref_pil) "a/photo.png" None
        (world0 [("a/photo.png", gray_file)])).2).
Proof.
  assert ("a/photo.png" ≠ "-h") as Hh by discriminate.
  assert ("a/photo.png" ≠ "--help") as Hhelp by discriminate.
  split; [exact Hh |]. split; [exact Hhelp |].
  exact (X16_one_argument (pil := ref_pil) "script.py" "a/photo.png"
           (world0 [("a/photo.png", gray_file)]) Hh Hhelp).
Defined.

(** X17: when the input cannot be opened, the exception of [Image.open]
    ends the script with a traceback; nothing is printed and the file
    system is as before. *)
Theorem X17_open_failure_traceback {pil : Image.PIL} (prog input : string)
    (rest : list string) (w : World) (e : exn) :
  rest ≠ [] ∨ (input ≠ "-h" ∧ input ≠ "--help") →
  Image.open input w = (Raise e, w) →
  main (prog :: input :: rest) w = (Traceback e, w).
Proof.
  intros Hrun Hopen. rewrite main_runs by done.
  unfold convert_image_to_4bit_grayscale, mbind, M_bind.
  by rewrite Hopen.
Qed.

Lemma X17_witness :
  main (pil := ref_pil) ["script.py"; "broken.png"; "out.bin"] broken_world
  = (Traceback UnidentifiedImageError, broken_world).
Proof.
  apply (X17_open_failure_traceback (pil := ref_pil) "script.py" "broken.png"
           ["out.bin"] broken_world UnidentifiedImageError).
  - by left.
  - reflexivity.
Defined.

(** ** Paths without an extension *)

Lemma all_dots_no_sep (p : string) : all_dots p = true → has_char "/" p = false.
Proof.
  induction p as [| a p IH]; simpl; [done |].
  intros [Ha Hp]%andb_true_iff. apply bool_decide_eq_true in Ha as ->.
  simpl. by apply IH.
Qed.

Lemma all_dots_rfind (p : string) :
  all_dots p = true → rfind p "." = Z.of_nat (String.length p) - 1.
Proof.
  induction p as [| a p IH]; simpl; [done |].
  intros [Ha Hp]%andb_true_iff. rewrite (IH Hp).
  destruct (0 <=? Z.of_nat (String.length p) - 1) eqn:Hlen.
  - apply Z.leb_le in Hlen. lia.
  - apply Z.leb_gt in Hlen. rewrite Ha. lia.
Qed.

Lemma all_dots_get (p : string) (i : nat) :
  all_dots p = true → (i < String.length p)%nat → String.get i p = Some "."%char.
Proof.
  revert i. induction p as [| a p IH]; simpl; intros i Hdots Hi; [lia |].
  apply andb_true_iff in Hdots as [Ha Hp]. apply bool_decide_eq_true in Ha as ->.
  destruct i as [| i]; [done |]. apply IH; [done | lia].
Qed.

Lemma skip_leading_dots_none (p : string) (start count : nat) :
  (∀ i, (start ≤ i < start + count)%nat → String.get i p = Some "."%char) →
  skip_leading_dots p start count = false.
Proof.
  revert start. induction count as [| count IH]; intros start Hdots; [done |].
  simpl. rewrite bool_decide_eq_false_2.
  - apply IH. intros i Hi. apply Hdots. lia.
  - intros Hne. apply Hne, Hdots. lia.
Qed.

Lemma splitext_leading_dots (dir dots rest : string) :
  (dir = EmptyString ∨ ∃ dir', dir = dir' +:+ "/") →
  all_dots dots = true →
  has_char "." rest = false → has_char "/" rest = false →
  splitext (dir +:+ dots +:+ rest) = (dir +:+ dots +:+ rest, EmptyString).
Proof.
  intros Hdir Hdots Hrest_dot Hrest_sep.
  destruct (decide (dots = EmptyString)) as [-> | Hsome].
  { rewrite app_nil. by apply splitext_no_dot. }
  assert (1 ≤ Z.of_nat (String.length dots)) as Hlen
    by (destruct dots; [done | simpl; lia]).
  set (p := dir +:+ dots +:+ rest).
  assert (rfind p "/" = Z.of_nat (String.length dir) - 1) as Hsep.
  { unfold p. rewrite !rfind_app.
    rewrite (rfind_absent rest "/" Hrest_sep).
    rewrite (rfind_absent dots "/" (all_dots_no_sep dots Hdots)). simpl.
    destruct Hdir as [-> | [dir' ->]]; [done |].
    rewrite rfind_app, str_length_app. simpl. lia. }
  assert (rfind p "." = Z.of_nat (String.length dir) + Z.of_nat (String.length dots) - 1)
    as Hdot.
  { unfold p. rewrite !rfind_app.
    rewrite (rfind_absent rest "." Hrest_dot). simpl.
    rewrite (all_dots_rfind dots Hdots).
    rewrite (proj2 (Z.leb_le 0 _)) by lia. lia. }
  unfold splitext. fold p. rewrite Hsep, Hdot.
  rewrite skip_leading_dots_none; [by rewrite andb_false_r |].
  intros i Hi.
  replace i with (String.length dir + (i - String.length dir))%nat by lia.
  unfold p. rewrite get_app_r, get_app_l by lia.
  apply all_dots_get; [done | lia].
Qed.

(** X18: a path whose last component holds no dot, or dots only at its
    start, has no extension: the default output path is the whole input
    path with [-4bit.bin] appended, dots in the directory part being no
    extension either. *)
Theorem X18_no_extension (dir dots rest : string) :
  (dir = EmptyString ∨ ∃ dir', dir = dir' +:+ "/") →
  all_dots dots = true →
  has_char "." rest = false → has_char "/" rest = false →
  resolve_output_path (dir +:+ dots +:+ rest) None
  = dir +:+ dots +:+ rest +:+ "-4bit.bin".
Proof.
  intros Hdir Hdots Hrest_dot Hrest_sep. unfold resolve_output_path.
  rewrite splitext_leading_dots by done. simpl.
  by rewrite !str_app_assoc.
Qed.

Lemma X18_witness :
  resolve_output_path ("a.b/" +:+ "." +:+ "bashrc") None
  = "a.b/" +:+ "." +:+ "bashrc" +:+ "-4bit.bin".
Proof.
  apply (X18_no_extension "a.b/" "." "bashrc"); try reflexivity.
  right. by exists "a.b".
Defined.
